(** * gs2ew: saturation-time detection and plot renderers

    Shallow embedding of
      - [src/gs2ew/utils/gs2_output.py]   ([detect_saturation_time]),
      - [src/gs2ew/postprocess/fields.py] ([plot_fields_time_traces],
        [plot_fields_by_mode]),
      - [src/gs2ew/postprocess/transfer.py] ([plot_transfer_by_theta],
        [plot_transfer_by_theta_averaged]).

    NumPy's [float64] is Rocq's primitive binary64 [float]; Python's [int]
    is [Z]; a 1-D array is a [list float]; a raised exception is a value of
    [exn] in the [result] monad.  [np.log] is a C library routine and is
    taken as a parameter [np_log] of the development; so is the reduction
    [mean(dim="t")] of the averaged renderer, [mean_dim_t]. *)

From Stdlib Require Import Floats ZArith Lia Bool.
From stdpp Require Import base option list strings gmap.

(** ** Binary64: the predicates the detector uses *)

Module F64.
Local Open Scope Z_scope.

Definition is_nan (x : float) : bool := PrimFloat.is_nan x.
Definition ltb (x y : float) : bool := PrimFloat.ltb x y.
Definition leb (x y : float) : bool := PrimFloat.leb x y.
Arguments is_nan : simpl never.
Arguments ltb : simpl never.
Arguments leb : simpl never.

(** A float that is neither NaN nor an infinity. *)
Definition finite (x : float) : bool :=
  match Prim2SF x with
  | S754_zero _ | S754_finite _ _ _ => true
  | _ => false
  end.

(** The order of [SFcompare] on non-NaN values is the lexicographic order
    of a (class, exponent, mantissa) key; both zeros share one key. *)
Definition key (x : spec_float) : Z * (Z * Z) :=
  match x with
  | S754_nan => (0, (0, 0))
  | S754_zero _ => (0, (0, 0))
  | S754_infinity true => (-2, (0, 0))
  | S754_infinity false => (2, (0, 0))
  | S754_finite true m e => (-1, (- e, Z.neg m))
  | S754_finite false m e => (1, (e, Z.pos m))
  end.

Definition key_lt (a b : Z * (Z * Z)) : Prop :=
  a.1 < b.1 \/ (a.1 = b.1 /\ (a.2.1 < b.2.1 \/ (a.2.1 = b.2.1 /\ a.2.2 < b.2.2))).

Definition fkey (x : float) : Z * (Z * Z) := key (Prim2SF x).

End F64.

(** ** Python values: exceptions, integers, slices *)

(** The [ValueError]s that the code can meet, by origin. *)
Inductive value_error :=
| NanToInt        (* int(nan): cannot convert float NaN to integer *)
| Broadcast       (* operands could not be broadcast together *)
| AllNanSlice     (* np.nanargmax: All-NaN slice encountered *)
| EmptySequence.  (* argmax / max of an empty sequence *)

Inductive exn :=
| KeyError (name : string)   (* ds[name] with [name] absent *)
| IndexError                 (* a[i] out of bounds, mask of the wrong length *)
| OverflowError              (* int(inf) *)
| ValueError (why : value_error).

Inductive result (A : Type) :=
| Return (a : A)
| Raise (e : exn).
Arguments Return {A} a.
Arguments Raise {A} e.

Definition bind {A B : Type} (r : result A) (k : A -> result B) : result B :=
  match r with
  | Return a => k a
  | Raise e => Raise e
  end.

Notation "x <- r ;; k" := (bind r (fun x => k))
  (at level 100, r at next level, right associativity).

Definition raises {A : Type} (r : result A) : Prop :=
  match r with Raise _ => True | Return _ => False end.

(** [int(x)] on a float: truncation toward zero; [OverflowError] on an
    infinity and [ValueError] on NaN. *)
Definition py_int (x : float) : result Z :=
  match Prim2SF x with
  | S754_nan => Raise (ValueError NanToInt)
  | S754_infinity _ => Raise OverflowError
  | S754_zero _ => Return 0%Z
  | S754_finite s m e =>
      let v := Z.shiftl (Z.pos m) e in
      Return (if s then (- v)%Z else v)
  end.

(** [a[i]] for a non-negative literal index. *)
Definition getitem {A : Type} (a : list A) (i : nat) : result A :=
  match a !! i with
  | Some x => Return x
  | None => Raise IndexError
  end.

(** Position denoted by a slice bound [i] in a sequence of length [n]:
    a negative bound counts from the end, and the outcome is clamped to
    [0..n]. *)
Definition slice_bound (n : nat) (i : Z) : nat :=
  Z.to_nat (Z.min (Z.max 0 (if (i <? 0)%Z then (i + Z.of_nat n)%Z else i)) (Z.of_nat n)).

(** [a[i:]] *)
Definition slice_from {A : Type} (a : list A) (i : Z) : list A :=
  drop (slice_bound (length a) i) a.

(** [a[:j]] *)
Definition slice_to {A : Type} (a : list A) (j : Z) : list A :=
  take (slice_bound (length a) j) a.

(** ** NumPy on 1-D float64 arrays *)

(** Element-wise binary operation with NumPy broadcasting of shapes [(n,)]
    and [(m,)]: equal lengths, or one of them of length 1. *)
Definition broadcast2 (f : float -> float -> float) (a b : list float)
  : result (list float) :=
  if decide (length a = length b) then Return (zip_with f a b)
  else match a, b with
       | [x], _ => Return (map (f x) b)
       | _, [y] => Return (map (fun x => f x y) a)
       | _, _ => Raise (ValueError Broadcast)
       end.

Definition np_sub : list float -> list float -> result (list float) :=
  broadcast2 PrimFloat.sub.
Definition np_div : list float -> list float -> result (list float) :=
  broadcast2 PrimFloat.div.

(** [np.full(n, v)] *)
Definition np_full (n : nat) (v : float) : list float := replicate n v.

(** [a[i:] = rhs]: [rhs] must have the length of the target region, or
    length 1. *)
Definition setitem_slice_from (a : list float) (i : Z) (rhs : list float)
  : result (list float) :=
  let s := slice_bound (length a) i in
  let n := (length a - s)%nat in
  if decide (length rhs = n) then Return (take s a ++ rhs)
  else match rhs with
       | [v] => Return (take s a ++ replicate n v)
       | _ => Raise (ValueError Broadcast)
       end.

(** [np.argmax]: index of the first occurrence of the maximum; a NaN counts
    as maximal.  The loop keeps the running maximum [mp] found at [mi] and
    replaces it when [not (x <= mp)]. *)
Fixpoint argmax_loop (mp : float) (mi i : nat) (a : list float) : nat :=
  match a with
  | [] => mi
  | x :: a' =>
      if negb (F64.leb x mp)
      then (if F64.is_nan x then i else argmax_loop x i (S i) a')
      else argmax_loop mp mi (S i) a'
  end.

Definition np_argmax (a : list float) : result nat :=
  match a with
  | [] => Raise (ValueError EmptySequence)
  | x :: a' => Return (if F64.is_nan x then 0%nat else argmax_loop x 0 1 a')
  end.

(** [np.nanargmax]: NaNs are replaced by [-inf] before [np.argmax]; an
    array that holds only NaNs raises [ValueError]. *)
Definition replace_nan (v : float) (a : list float) : list float :=
  map (fun x => if F64.is_nan x then v else x) a.

Definition np_nanargmax (a : list float) : result nat :=
  if negb (bool_decide (a = [])) && forallb F64.is_nan a
  then Raise (ValueError AllNanSlice)
  else np_argmax (replace_nan neg_infinity a).

(** [a[mask]] with a boolean mask of the same length. *)
Fixpoint compress (mask : list bool) (a : list float) : list float :=
  match mask, a with
  | b :: mask', x :: a' => if b then x :: compress mask' a' else compress mask' a'
  | _, _ => []
  end.

Definition getitem_mask (a : list float) (mask : list bool) : result (list float) :=
  if decide (length mask = length a) then Return (compress mask a)
  else Raise IndexError.

(** [np.max]: the maximum, NaN if any entry is NaN. *)
Definition np_max (a : list float) : result float :=
  match a with
  | [] => Raise (ValueError EmptySequence)
  | x :: a' =>
      Return (fold_left (fun m y => if F64.is_nan m then m
                                    else if F64.is_nan y then y
                                    else if F64.ltb m y then y else m) a' x)
  end.

(** ** The dataset

    A GS2 output dataset, as the renderers read it: 1-D coordinates
    ([t], [kx], [ky], [theta]), time traces indexed [[t]] ([phi2], [apar2],
    [bpar2]), spectra indexed [[t][ky][kx]] ([*_by_mode]) and transfer
    diagnostics indexed [[t][theta]].  Any variable may be absent. *)
Record Dataset := {
  coords : gmap string (list float);
  traces : gmap string (list float);
  spectra : gmap string (list (list (list float)));
  transfers : gmap string (list (list float));
}.

(** [ds[name]] raises [KeyError] when [name] is absent. *)
Definition getvar {V : Type} (m : gmap string V) (name : string) : result V :=
  match m !! name with
  | Some v => Return v
  | None => Raise (KeyError name)
  end.

(** [name in ds] *)
Definition has {V : Type} (m : gmap string V) (name : string) : bool :=
  bool_decide (is_Some (m !! name)).

(** ** [gs2ew.utils.gs2_output] *)

Section Detector.

(** [np.log], applied element-wise. *)
Variable np_log : float -> float.

(** [idx = int(window / (t[1] - t[0]))] *)
Definition window_index (t : list float) (window : float) : result Z :=
  t1 <- getitem t 1 ;;
  t0 <- getitem t 0 ;;
  py_int (window / (t1 - t0)).

(** The rolling growth rate: [np.full(len(t), nan)] overwritten from
    [idx] on by the finite difference of [logphi2] over that of [t]. *)
Definition growth_rate_of (t phi2 : list float) (idx : Z) : result (list float) :=
  let logphi2 := map np_log phi2 in
  let growth_rate := np_full (length t) nan in
  num <- np_sub (slice_from logphi2 idx) (slice_to logphi2 (- idx)%Z) ;;
  den <- np_sub (slice_from t idx) (slice_to t (- idx)%Z) ;;
  rhs <- np_div num den ;;
  setitem_slice_from growth_rate idx rhs.

(** The search after the growth rate is known: peak by [np.nanargmax],
    then the first time from the peak on whose growth rate is below
    [threshold], or NaN. *)
Definition saturation_search (t growth_rate : list float) (threshold : float)
  : result float :=
  max_growth_idx <- np_nanargmax growth_rate ;;
  let p := Z.of_nat max_growth_idx in
  saturated_times <-
    getitem_mask (slice_from t p)
      (map (fun g => F64.ltb g threshold) (slice_from growth_rate p)) ;;
  match saturated_times with
  | x :: _ => Return x
  | [] => Return nan
  end.

Definition detect_saturation_time (ds : Dataset) (window threshold : float)
  : result float :=
  t <- getvar (coords ds) "t" ;;
  phi2 <- getvar (traces ds) "phi2" ;;
  idx <- window_index t window ;;
  growth_rate <- growth_rate_of t phi2 idx ;;
  saturation_search t growth_rate threshold.

End Detector.

(** ** matplotlib figures and the file system

    A figure is the list of its axes; an axes records what was drawn on it.
    The drawing calls are total: they only record.  The file system maps a
    path to the figure saved there. *)

Inductive artist :=
| Line (x y : list float) (label : string)       (* ax.plot *)
| LogLine (x y : list float) (label : string)    (* ax.semilogy *)
| VSpan (xmin xmax : float)                      (* ax.axvspan *)
| VLine (x : float)                              (* ax.axvline, labelled with [x] *)
| Mesh (x y : list float) (c : list (list float)). (* ax.pcolormesh and its colorbar *)

Inductive axes_title :=
| NoTitle
| Title (s : string)
| TitleAveraged (tstart tend : float).  (* "Averaged over t = [tstart, tend]" *)

Record axes := {
  artists : list artist;
  xlabel : string;
  ylabel : string;
  title : axes_title;
  legend : bool;
  grid : bool;
  visible : bool;
}.

Definition figure := list axes.

(** A fresh axes of [plt.subplots]. *)
Definition new_axes : axes :=
  {| artists := []; xlabel := ""; ylabel := ""; title := NoTitle;
     legend := false; grid := false; visible := true |}.

Definition draw (a : artist) (ax : axes) : axes :=
  {| artists := artists ax ++ [a]; xlabel := xlabel ax; ylabel := ylabel ax;
     title := title ax; legend := legend ax; grid := grid ax;
     visible := visible ax |}.

Definition set_xlabel (s : string) (ax : axes) : axes :=
  {| artists := artists ax; xlabel := s; ylabel := ylabel ax;
     title := title ax; legend := legend ax; grid := grid ax;
     visible := visible ax |}.

Definition set_ylabel (s : string) (ax : axes) : axes :=
  {| artists := artists ax; xlabel := xlabel ax; ylabel := s;
     title := title ax; legend := legend ax; grid := grid ax;
     visible := visible ax |}.

Definition set_title (s : axes_title) (ax : axes) : axes :=
  {| artists := artists ax; xlabel := xlabel ax; ylabel := ylabel ax;
     title := s; legend := legend ax; grid := grid ax;
     visible := visible ax |}.

Definition set_legend (ax : axes) : axes :=
  {| artists := artists ax; xlabel := xlabel ax; ylabel := ylabel ax;
     title := title ax; legend := true; grid := grid ax;
     visible := visible ax |}.

Definition set_grid (ax : axes) : axes :=
  {| artists := artists ax; xlabel := xlabel ax; ylabel := ylabel ax;
     title := title ax; legend := legend ax; grid := true;
     visible := visible ax |}.

Definition set_visible (b : bool) (ax : axes) : axes :=
  {| artists := artists ax; xlabel := xlabel ax; ylabel := ylabel ax;
     title := title ax; legend := legend ax; grid := grid ax;
     visible := b |}.

Record fs := {
  dirs : gset string;
  files : gmap string figure;
}.

(** [Path(output_dir).mkdir(parents=True, exist_ok=True)] *)
Definition mkdir (p : string) (w : fs) : fs :=
  {| dirs := {[ p ]} ∪ dirs w; files := files w |}.

(** [plt.savefig(output_path, ...)] *)
Definition savefig (p : string) (f : figure) (w : fs) : fs :=
  {| dirs := dirs w; files := <[ p := f ]> (files w) |}.

(** [output_dir / filename] *)
Definition path_join (output_dir filename : string) : string :=
  output_dir +:+ "/" +:+ filename.

(** A renderer runs on a file system and leaves a file system, also when it
    raises. *)
Definition io (A : Type) : Type := fs -> fs * result A.

Definition io_ret {A : Type} (a : A) : io A := fun w => (w, Return a).

Definition io_bind {A B : Type} (c : io A) (k : A -> io B) : io B :=
  fun w => match c w with
           | (w', Return a) => k a w'
           | (w', Raise e) => (w', Raise e)
           end.

Definition io_lift {A : Type} (r : result A) : io A := fun w => (w, r).

Definition io_do (f : fs -> fs) : io unit := fun w => (f w, Return tt).

Notation "x <~ c ;; k" := (io_bind c (fun x => k))
  (at level 100, c at next level, right associativity).

(** A [for] loop that updates [acc] and may raise. *)
Fixpoint for_each {A S : Type} (xs : list A) (body : S -> A -> result S) (acc : S)
  : result S :=
  match xs with
  | [] => Return acc
  | x :: xs' => acc' <- body acc x ;; for_each xs' body acc'
  end.

(** ** xarray selections *)

(** [da.isel(t=-1)]: the last entry along [t]. *)
Definition isel_last {A : Type} (a : list A) : result A :=
  match last a with
  | Some x => Return x
  | None => Raise IndexError
  end.

(** [np.fft.fftshift] along one axis: the second half comes first. *)
Definition fftshift {A : Type} (a : list A) : list A :=
  let s := (length a - length a / 2)%nat in
  drop s a ++ take s a.

(** Insertion points of a label in a sorted index: before the first entry
    not below it ([side="left"]), after the last entry not above it
    ([side="right"]). *)
Fixpoint searchsorted_left (t : list float) (x : float) : nat :=
  match t with
  | [] => 0
  | y :: t' => if F64.ltb y x then S (searchsorted_left t' x) else 0
  end.

Fixpoint searchsorted_right (t : list float) (x : float) : nat :=
  match t with
  | [] => 0
  | y :: t' => if F64.leb y x then S (searchsorted_right t' x) else 0
  end.

(** [da.sel(t=slice(tstart, tend))] on an increasing index [t]: label-based,
    both ends included. *)
Definition sel_t_slice {A : Type} (t : list float) (a : list A) (tstart tend : float)
  : list A :=
  let lo := searchsorted_left t tstart in
  let hi := searchsorted_right t tend in
  take (hi - lo) (drop lo a).

(** ** [gs2ew.postprocess.fields] *)

Section Fields.

Variable np_log : float -> float.

Definition plot_fields_time_traces (ds : Dataset) (output_dir : string)
    (filename : option string) (window threshold : float) : io string :=
  (* Determine enabled fields *)
  let fields := List.filter (has (traces ds)) ["phi2"; "apar2"; "bpar2"] in
  (* Detect saturation time (just uses phi2) *)
  tsat <~ io_lift (detect_saturation_time np_log ds window threshold) ;;
  _ <~ io_do (mkdir output_dir) ;;
  let filename := default "field_time_traces.png" filename in
  t <~ io_lift (getvar (coords ds) "t") ;;
  let ax := new_axes in
  (* Plot each field on log scale *)
  ax <~ io_lift (for_each fields (fun ax field =>
          field_trace <- getvar (traces ds) field ;;
          Return (draw (LogLine t field_trace field) ax)) ax) ;;
  (* Highlight saturated region *)
  ax <~ io_lift (if negb (F64.is_nan tsat)
                 then tmax <- np_max t ;;
                      Return (draw (VLine tsat) (draw (VSpan tsat tmax) ax))
                 else Return ax) ;;
  let ax := set_grid (set_legend (set_ylabel "field$^2$" (set_xlabel "t" ax))) in
  let output_path := path_join output_dir filename in
  _ <~ io_do (savefig output_path [ax]) ;;
  io_ret output_path.

Definition mode_labels : gmap string string :=
  {[ "phi2_by_mode" := "$|\phi|^2$";
     "apar2_by_mode" := "$|A_\parallel|^2$";
     "bpar2_by_mode" := "$|B_\parallel|^2$" ]}.

Definition plot_fields_by_mode (ds : Dataset) (output_dir : string)
    (filename : option string) : io string :=
  let all_fields := ["phi2_by_mode"; "apar2_by_mode"; "bpar2_by_mode"] in
  let fields := List.filter (has (spectra ds)) all_fields in
  _ <~ io_do (mkdir output_dir) ;;
  let filename := default "fields_by_mode.png" filename in
  kx0 <~ io_lift (getvar (coords ds) "kx") ;;
  let kx := fftshift kx0 in
  ky <~ io_lift (getvar (coords ds) "ky") ;;
  (* 1 row, 3 columns; zip(axes, all_fields) *)
  fig <~ io_lift (for_each all_fields (fun fig field =>
           if bool_decide (field ∈ fields)
           then da <- getvar (spectra ds) field ;;
                data <- isel_last da ;;
                let data_shifted := map fftshift data in
                lbl <- getvar mode_labels field ;;
                Return (fig ++ [set_title (Title lbl)
                         (set_ylabel "$k_y \rho_\text{ref}$"
                           (set_xlabel "$k_x \rho_\text{ref}$"
                             (draw (Mesh kx ky data_shifted) new_axes)))])
           else Return (fig ++ [set_visible false new_axes])) []) ;;
  let output_path := path_join output_dir filename in
  _ <~ io_do (savefig output_path fig) ;;
  io_ret output_path.

End Fields.

(** ** [gs2ew.postprocess.transfer] *)

Definition all_diags : list string :=
  [ "kinetic_energy_transfer_theta";
    "entropy_transfer_phi_theta";
    "entropy_transfer_apar_theta";
    "entropy_transfer_bpar_theta" ].

Definition transfer_labels : gmap string string :=
  {[ "kinetic_energy_transfer_theta" := "$T_v^\text{ZF}$";
     "entropy_transfer_phi_theta" := "$T_{S,\phi}^\text{ZF}$";
     "entropy_transfer_apar_theta" := "$T_{S,A_\parallel}^\text{ZF}$";
     "entropy_transfer_bpar_theta" := "$T_{S,B_\parallel}^\text{ZF}$" ]}.

Definition plot_transfer_by_theta (ds : Dataset) (output_dir : string)
    (filename : option string) : io string :=
  let enabled_diagnostics := List.filter (has (transfers ds)) all_diags in
  _ <~ io_do (mkdir output_dir) ;;
  let filename := default "transfer_by_theta.png" filename in
  theta <~ io_lift (getvar (coords ds) "theta") ;;
  let ax := new_axes in
  ax <~ io_lift (for_each enabled_diagnostics (fun ax diag =>
          da <- getvar (transfers ds) diag ;;
          transfer <- isel_last da ;;
          lbl <- getvar transfer_labels diag ;;
          Return (draw (Line theta transfer lbl) ax)) ax) ;;
  let ax := set_grid (set_legend (set_ylabel "transfer" (set_xlabel "$\theta$" ax))) in
  let output_path := path_join output_dir filename in
  _ <~ io_do (savefig output_path [ax]) ;;
  io_ret output_path.

(** The averaging interval: [tstart] defaults to [t[-1] - window], and
    [tend = tstart + window]. *)
Definition averaging_interval (ds : Dataset) (window : float) (tstart : option float)
  : result (float * float) :=
  (* If tstart not provided, use the last `window` time units *)
  tstart <- match tstart with
            | Some v => Return v
            | None => t <- getvar (coords ds) "t" ;;
                      tlast <- isel_last t ;;
                      Return (tlast - window)%float
            end ;;
  let tend := (tstart + window)%float in
  Return (tstart, tend).

Section Averaged.

(** [da.mean(dim="t")] of an array indexed [[t][theta]]: one value per
    [theta].  The reduction is NumPy's; it is a parameter here, and what
    is proved holds for every reduction. *)
Variable mean_dim_t : list (list float) -> list float.

(** One pass of the averaging loop:
    [ds[diag].sel(t=slice(tstart, tend)).mean(dim="t").values]. *)
Definition transfer_avg_of (ds : Dataset) (tstart tend : float) (diag : string)
  : result (list float) :=
  da <- getvar (transfers ds) diag ;;
  t <- getvar (coords ds) "t" ;;
  Return (mean_dim_t (sel_t_slice t da tstart tend)).

Definition plot_transfer_by_theta_averaged (ds : Dataset) (window : float)
    (tstart : option float) (output_dir : string) (filename : option string)
  : io string :=
  let enabled_diagnostics := List.filter (has (transfers ds)) all_diags in
  interval <~ io_lift (averaging_interval ds window tstart) ;;
  let tstart := interval.1 in
  let tend := interval.2 in
  _ <~ io_do (mkdir output_dir) ;;
  let filename := default "transfer_by_theta_averaged.png" filename in
  theta <~ io_lift (getvar (coords ds) "theta") ;;
  let ax := new_axes in
  ax <~ io_lift (for_each enabled_diagnostics (fun ax diag =>
          transfer_avg <- transfer_avg_of ds tstart tend diag ;;
          lbl <- getvar transfer_labels diag ;;
          Return (draw (Line theta transfer_avg lbl) ax)) ax) ;;
  let ax := set_grid (set_legend (set_title (TitleAveraged tstart tend)
              (set_ylabel "transfer" (set_xlabel "$\theta$" ax)))) in
  let output_path := path_join output_dir filename in
  _ <~ io_do (savefig output_path [ax]) ;;
  io_ret output_path.

End Averaged.

(** ** A reference [log] and [exp] on binary64

  Used to run the model on concrete inputs.  [log_ref] follows the IEEE
  conventions of [np.log] at the special values (NaN for a negative or NaN
  argument, [-inf] at zero, [+inf] at [+inf]); elsewhere both are computed
  in binary64 by range reduction and a truncated series.  The general
  theorems below hold for every [np_log]. *)

Module Libm.

Definition ln2 : float := 0x1.62e42fefa39efp-1%float.

Definition of_Z (z : Z) : float :=
  let a := of_uint63 (Uint63.of_Z (Z.abs z)) in
  if (z <? 0)%Z then (- a)%float else a.

(** Horner evaluation of [sum_{j<=n} w^j / (2j+1)]. *)
Fixpoint atanh_poly (n : nat) (w acc : float) : float :=
  match n with
  | O => acc
  | S n' => atanh_poly n' w (acc * w + 1 / of_Z (2 * Z.of_nat n' + 1)%Z)%float
  end.

Definition log_ref (x : float) : float :=
  if PrimFloat.is_nan x then nan
  else if (x <? 0)%float then nan
  else if (x =? 0)%float then neg_infinity
  else if (x =? infinity)%float then infinity
  else
    let '(m, e) := Z.frexp x in
    let '(m, e) := if (m <? 0x1.6a09e667f3bcdp-1)%float
                   then ((2 * m)%float, (e - 1)%Z) else (m, e) in
    let z := ((m - 1) / (m + 1))%float in
    (2 * z * atanh_poly 14 (z * z) (1 / 29) + of_Z e * ln2)%float.

(** Horner evaluation of [sum_{j<=n} r^j / j!]. *)
Fixpoint exp_poly (n : nat) (r acc : float) : float :=
  match n with
  | O => acc
  | S n' => exp_poly n' r (1 + r * acc / of_Z (Z.of_nat n))%float
  end.

Definition exp_ref (x : float) : float :=
  match py_int (x / ln2 + (if (x <? 0)%float then -0.5 else 0.5))%float with
  | Return k => Z.ldexp (exp_poly 20 (x - of_Z k * ln2)%float 1) k
  | Raise _ => if (x <? 0)%float then 0%float else x
  end.

End Libm.

(** ** Vocabulary of the specification *)

(** The time coordinate is strictly increasing. *)
Fixpoint strictly_increasing (t : list float) : bool :=
  match t with
  | x :: (y :: _) as t' => F64.ltb x y && strictly_increasing t'
  | _ => true
  end.

(** Every field value is strictly positive. *)
Definition strictly_positive (phi2 : list float) : bool :=
  forallb (fun v => F64.ltb 0 v) phi2.

(** [g[i]] is a defined (not missing) growth rate. *)
Definition defined_at (g : list float) (i : nat) : Prop :=
  exists x, g !! i = Some x /\ F64.is_nan x = false.

(** [i] is the smallest index that attains the maximum over the defined
    entries of [g]. *)
Definition first_peak (g : list float) (i : nat) : Prop :=
  exists x, g !! i = Some x /\ F64.is_nan x = false /\
    (forall j y, g !! j = Some y -> F64.is_nan y = false -> F64.leb y x = true) /\
    (forall j y, j < i -> g !! j = Some y -> F64.is_nan y = false ->
                 F64.ltb y x = true).

(** [i] is the smallest index [>= p] with [g[i] < threshold]. *)
Definition first_below (g : list float) (threshold : float) (p i : nat) : Prop :=
  p <= i /\
  (exists x, g !! i = Some x /\ F64.ltb x threshold = true) /\
  (forall j y, p <= j < i -> g !! j = Some y -> F64.ltb y threshold = false).

(** No entry of [g] from [p] on is below [threshold]. *)
Definition none_below (g : list float) (threshold : float) (p : nat) : Prop :=
  forall j y, p <= j -> g !! j = Some y -> F64.ltb y threshold = false.

(** What the search must return on the time series [t] with growth rates
    [g]: the time of the first entry below [threshold] from the first peak
    on, NaN when there is none, and the error of [np.nanargmax] when no
    entry is defined. *)
Definition search_spec (t g : list float) (threshold : float) (r : result float)
  : Prop :=
  (Forall (fun x => F64.is_nan x = true) g /\ r = Raise (ValueError AllNanSlice)) \/
  (exists q, first_peak g q /\
     ((exists i v, first_below g threshold q i /\ t !! i = Some v /\ r = Return v) \/
      (none_below g threshold q /\ r = Return nan))).

(** The finite difference of the logarithm at index [i], window [k]. *)
Definition finite_difference (np_log : float -> float) (t phi2 : list float)
    (k i : nat) : option float :=
  fi ← phi2 !! i; fk ← phi2 !! (i - k);
  ti ← t !! i; tk ← t !! (i - k);
  Some ((np_log fi - np_log fk) / (ti - tk))%float.

(** The array the code builds for a window of [k >= 1] samples. *)
Definition growth_array (np_log : float -> float) (t phi2 : list float) (k : nat)
  : list float :=
  let logphi2 := map np_log phi2 in
  replicate (Nat.min k (length t)) nan ++
  zip_with PrimFloat.div
    (zip_with PrimFloat.sub (drop k logphi2) (take (length logphi2 - k) logphi2))
    (zip_with PrimFloat.sub (drop k t) (take (length t - k) t)).

(** The entries of [a] whose time lies in the closed interval
    [[lo, hi]]. *)
Fixpoint samples_in_interval {A : Type} (t : list float) (a : list A)
    (lo hi : float) : list A :=
  match t, a with
  | y :: t', r :: a' =>
      if F64.leb lo y && F64.leb y hi
      then r :: samples_in_interval t' a' lo hi
      else samples_in_interval t' a' lo hi
  | _, _ => []
  end.


(** ** Example data *)

Definition of_nat (n : nat) : float := of_uint63 (Uint63.of_Z (Z.of_nat n)).

Definition mk_dataset (t phi2 : list float) : Dataset :=
  {| coords := {[ "t" := t ]}; traces := {[ "phi2" := phi2 ]};
     spectra := ∅; transfers := ∅ |}.

(** The end-to-end scenario: [time = [0, 1, ..., 49]], [field[i] =
    exp(0.5 i)] up to [i = 25] and [field[25]] afterwards, [window = 5],
    [threshold = 0.1] (the binary64 closest to one tenth). *)
Definition scenario_time : list float := map of_nat (seq 0 50).

Definition scenario_field (np_exp : float -> float) : list float :=
  map (fun i => np_exp (0.5 * of_nat i)%float) (seq 0 26) ++
  replicate 24 (np_exp (0.5 * of_nat 25)%float).

Definition scenario_threshold : float := 0x1.999999999999ap-4%float.

(** The growth rates of the linear phase, [5 <= i < 25], are not below the
    threshold. *)
Definition scenario_growth_ok (np_log np_exp : float -> float) : bool :=
  forallb (fun i =>
    match finite_difference np_log scenario_time (scenario_field np_exp) 5 i with
    | Some x => negb (F64.ltb x scenario_threshold)
    | None => false
    end) (seq 5 20).

(** A short run: three doublings, then a flat tail. *)
Definition ex_time : list float := [0; 1; 2; 3; 4; 5]%float.
Definition ex_field : list float := [1; 2; 4; 8; 8; 8]%float.

(** A run that keeps growing. *)
Definition ex_time4 : list float := [0; 1; 2; 3]%float.
Definition ex_growing : list float := [1; 2; 4; 8]%float.
Definition ex_growing_rate : list float :=
  Eval vm_compute in
    match growth_rate_of Libm.log_ref ex_time4 ex_growing 1 with
    | Return g => g
    | Raise _ => []
    end.


(** A field array one sample shorter than the time coordinate. *)
Definition ex_field_short : list float := [1; 2; 4; 8; 8]%float.

Definition empty_fs : fs := {| dirs := ∅; files := ∅ |}.

(** A dataset with coordinates only. *)
Definition ds_coords_only : Dataset :=
  {| coords := {[ "t" := [0; 1; 2]%float; "kx" := [0; 1; -1]%float;
                  "ky" := [0; 1]%float; "theta" := [0; 1]%float ]};
     traces := ∅; spectra := ∅; transfers := ∅ |}.

(** One transfer diagnostic on four samples whose last time is [t_last]. *)
Definition ds_transfer (t : list float) : Dataset :=
  {| coords := {[ "t" := t; "theta" := [0]%float ]};
     traces := ∅; spectra := ∅;
     transfers := {[ "kinetic_energy_transfer_theta" :=
                       [[1]; [2]; [3]; [4]]%float ]} |}.


(** [1.2; 2.4; 3.6] as the closest binary64 values. *)
Definition ex_time_3_6 : list float :=
  [0; 0x1.3333333333333p+0; 0x1.3333333333333p+1; 0x1.ccccccccccccdp+1]%float.

(** A series whose first two samples coincide, a single sample, and a field
    array three samples short. *)
Definition ex_time_repeated : list float := [1; 1; 2]%float.
Definition ex_field3 : list float := [1; 2; 4]%float.


(** A stand-in for the reduction along [t] that hands back the rows it was
    given, to read off which samples are averaged. *)
Definition ex_rows_seen (rows : list (list float)) : list float := concat rows.


(** ** Binary64 facts *)

Module F64Facts.
Import F64.
Local Open Scope Z_scope.

Lemma key_lt_irrefl a : ~ key_lt a a.
Proof. unfold key_lt. lia. Qed.

Lemma key_lt_trans a b c : key_lt a b -> key_lt b c -> key_lt a c.
Proof. unfold key_lt. lia. Qed.

Lemma key_trichotomy a b : key_lt a b \/ a = b \/ key_lt b a.
Proof.
  destruct a as [a1 [a2 a3]], b as [b1 [b2 b3]]. unfold key_lt. simpl.
  destruct (Z.lt_trichotomy a1 b1) as [?|[->|?]];
    destruct (Z.lt_trichotomy a2 b2) as [?|[->|?]];
    destruct (Z.lt_trichotomy a3 b3) as [?|[->|?]];
    first [ left; lia | right; right; lia | right; left; reflexivity ].
Qed.

Lemma SFcompare_finite (sx sy : bool) (mx my : positive) (ex ey : Z) :
  SFcompare (S754_finite sx mx ex) (S754_finite sy my ey) =
  Some (match sx, sy with
        | true, false => Lt
        | false, true => Gt
        | false, false =>
            match (ex ?= ey)%Z with
            | Lt => Lt | Gt => Gt | Eq => (mx ?= my)%positive
            end
        | true, true =>
            match (ex ?= ey)%Z with
            | Lt => Gt | Gt => Lt | Eq => CompOpp (mx ?= my)%positive
            end
        end).
Proof. destruct sx, sy; reflexivity. Qed.

Lemma SFcompare_None (x y : spec_float) :
  SFcompare x y = None <-> x = S754_nan \/ y = S754_nan.
Proof.
  destruct x as [sx|sx| |sx mx ex], y as [sy|sy| |sy my ey]; simpl;
    split; intros H; try discriminate; auto;
    destruct H as [H|H]; discriminate.
Qed.

Ltac cmp_cases :=
  repeat match goal with
    | |- context [(?a ?= ?b)%Z] =>
        destruct (Z.compare_spec a b); subst
    | |- context [(?a ?= ?b)%positive] =>
        destruct (Pos.compare_spec a b); subst
    end.

Lemma SFcompare_Lt (x y : spec_float) :
  SFcompare x y = Some Lt <->
  x <> S754_nan /\ y <> S754_nan /\ key_lt (key x) (key y).
Proof.
  unfold key_lt.
  destruct x as [sx|sx| |sx mx ex], y as [sy|sy| |sy my ey];
    try rewrite SFcompare_finite; cbn [SFcompare key fst snd];
    try destruct sx; try destruct sy; cbn [fst snd]; cmp_cases; cbn [CompOpp];
    (split; [intros [=]; repeat split; try discriminate; lia
            | intros (? & ? & ?); try congruence; try (f_equal; lia) ]).
Qed.

Lemma SFcompare_Eq (x y : spec_float) :
  SFcompare x y = Some Eq <->
  x <> S754_nan /\ y <> S754_nan /\ key x = key y.
Proof.
  destruct x as [sx|sx| |sx mx ex], y as [sy|sy| |sy my ey];
    try rewrite SFcompare_finite; cbn [SFcompare key];
    try destruct sx; try destruct sy; cmp_cases; cbn [CompOpp];
    (split; [intros [=]; repeat split; try discriminate; try reflexivity; lia
            | intros (? & ? & [=]); try congruence; try lia ]).
Qed.

Lemma SFcompare_antisym (x y : spec_float) (c : comparison) :
  SFcompare x y = Some c -> SFcompare y x = Some (CompOpp c).
Proof.
  destruct x as [sx|sx| |sx mx ex], y as [sy|sy| |sy my ey];
    try rewrite !SFcompare_finite; cbn [SFcompare];
    try discriminate;
    try (destruct sx; intros [= <-]; reflexivity);
    try (destruct sy; intros [= <-]; reflexivity);
    try (destruct sx, sy; intros [= <-]; reflexivity);
    try (intros [= <-]; reflexivity).
  rewrite (Z.compare_antisym ex ey), (Pos.compare_antisym mx my).
  destruct sx, sy; intros [= <-]; try reflexivity;
    destruct (ex ?= ey)%Z; simpl; try reflexivity;
    destruct (mx ?= my)%positive; reflexivity.
Qed.

(** *** The same order on primitive floats *)

Lemma is_nan_true (x : float) : is_nan x = true <-> Prim2SF x = S754_nan.
Proof.
  unfold is_nan, PrimFloat.is_nan. rewrite FloatAxioms.eqb_spec. unfold SFeqb.
  destruct (SFcompare (Prim2SF x) (Prim2SF x)) as [[]|] eqn:E; simpl.
  - apply SFcompare_Eq in E as (? & _). split; [discriminate|contradiction].
  - apply SFcompare_Lt in E as (_ & _ & E). by apply key_lt_irrefl in E.
  - apply SFcompare_antisym in E as E'. rewrite E in E'. discriminate.
  - apply SFcompare_None in E. split; [tauto|done].
Qed.

Lemma is_nan_false (x : float) : is_nan x = false <-> Prim2SF x <> S754_nan.
Proof.
  rewrite <- is_nan_true. destruct (is_nan x); split; congruence.
Qed.


Lemma ltb_iff (x y : float) :
  ltb x y = true <->
  is_nan x = false /\ is_nan y = false /\ key_lt (fkey x) (fkey y).
Proof.
  unfold ltb, fkey. rewrite ltb_spec, !is_nan_false, <- SFcompare_Lt.
  unfold SFltb. destruct (SFcompare _ _) as [[]|]; split; congruence.
Qed.

Lemma leb_iff (x y : float) :
  leb x y = true <->
  is_nan x = false /\ is_nan y = false /\ ~ key_lt (fkey y) (fkey x).
Proof.
  unfold leb, fkey. rewrite leb_spec, !is_nan_false. unfold SFleb.
  destruct (SFcompare _ _) as [[]|] eqn:E.
  - apply SFcompare_Eq in E as (? & ? & ->).
    split; [intros _|done]. repeat split; auto. apply key_lt_irrefl.
  - apply SFcompare_Lt in E as (? & ? & E).
    split; [intros _|done]. repeat split; auto.
    intros E'. exact (key_lt_irrefl _ (key_lt_trans _ _ _ E E')).
  - apply SFcompare_antisym, SFcompare_Lt in E as (? & ? & E).
    split; [done|]. intros (_ & _ & []). exact E.
  - apply SFcompare_None in E. split; [done|]. tauto.
Qed.

Lemma ltb_defined (x y : float) :
  ltb x y = true -> is_nan x = false /\ is_nan y = false.
Proof. rewrite ltb_iff. tauto. Qed.

Lemma ltb_nan_l (y : float) : ltb nan y = false.
Proof.
  destruct (ltb nan y) eqn:E; [|done]. by apply ltb_defined in E as [? _].
Qed.

Lemma leb_negb_ltb (x y : float) :
  is_nan x = false -> is_nan y = false -> leb x y = negb (ltb y x).
Proof.
  intros Hx Hy. destruct (ltb y x) eqn:E; simpl.
  - apply ltb_iff in E as (_ & _ & E).
    destruct (leb x y) eqn:E'; [|done]. apply leb_iff in E'. tauto.
  - apply leb_iff. repeat split; auto. intros E'.
    assert (ltb y x = true) by (apply ltb_iff; auto). congruence.
Qed.

Lemma ltb_irrefl (x : float) : ltb x x = false.
Proof.
  destruct (ltb x x) eqn:E; [|done].
  apply ltb_iff in E as (_ & _ & E). by apply key_lt_irrefl in E.
Qed.

Lemma ltb_trans (x y z : float) :
  ltb x y = true -> ltb y z = true -> ltb x z = true.
Proof.
  rewrite !ltb_iff. intros (? & ? & ?) (? & ? & ?).
  eauto using key_lt_trans.
Qed.

Lemma leb_ltb_trans (x y z : float) :
  leb x y = true -> ltb y z = true -> ltb x z = true.
Proof.
  rewrite !ltb_iff, leb_iff. intros (? & ? & Hxy) (? & ? & Hyz).
  repeat split; auto.
  destruct (key_trichotomy (fkey x) (fkey y)) as [?|[->|?]];
    eauto using key_lt_trans; done.
Qed.

Lemma ltb_leb_trans (x y z : float) :
  ltb x y = true -> leb y z = true -> ltb x z = true.
Proof.
  rewrite !ltb_iff, leb_iff. intros (? & ? & Hxy) (? & ? & Hyz).
  repeat split; auto.
  destruct (key_trichotomy (fkey y) (fkey z)) as [?|[<-|?]];
    eauto using key_lt_trans; done.
Qed.

Lemma leb_trans (x y z : float) :
  leb x y = true -> leb y z = true -> leb x z = true.
Proof.
  intros Hxy Hyz.
  assert (is_nan x = false /\ is_nan z = false) as [Hx Hz]
    by (apply leb_iff in Hxy, Hyz; tauto).
  rewrite leb_negb_ltb by done. apply negb_true_iff.
  destruct (ltb z x) eqn:E; [|done].
  pose proof (ltb_leb_trans _ _ _ E Hxy) as E'.
  apply leb_iff in Hyz as (_ & _ & Hyz). apply ltb_iff in E'. tauto.
Qed.

Lemma ltb_leb (x y : float) : ltb x y = true -> leb x y = true.
Proof.
  intros H. pose proof (ltb_defined _ _ H) as [Hx Hy].
  rewrite leb_negb_ltb by done. apply negb_true_iff.
  destruct (ltb y x) eqn:E; [|done].
  pose proof (ltb_trans _ _ _ H E) as E'. by rewrite ltb_irrefl in E'.
Qed.

Lemma leb_refl (x : float) : is_nan x = false -> leb x x = true.
Proof. intros H. rewrite leb_negb_ltb by done. by rewrite ltb_irrefl. Qed.

(** [-inf] is below every float that is not NaN. *)
Lemma neg_infinity_leb (x : float) :
  is_nan x = false -> leb neg_infinity x = true.
Proof.
  intros H. apply leb_iff. repeat split; [done..|].
  apply is_nan_false in H. unfold fkey, key_lt.
  change (Prim2SF neg_infinity) with (S754_infinity true).
  destruct (Prim2SF x) as [[]|[]| |[] m e]; cbn; try done; lia.
Qed.

(** *** NaN propagation and exact cancellation *)




Lemma div_nan_r (x : float) : (x / nan)%float = nan.
Proof.
  apply Prim2SF_inj. rewrite div_spec.
  change (Prim2SF nan) with S754_nan. by destruct (Prim2SF x).
Qed.

Lemma shl_align_same (m : positive) (e : Z) : shl_align m e e = (m, e).
Proof. unfold shl_align. by rewrite Z.sub_diag. Qed.

(** [x - x] is [+0] for every finite [x] (and NaN otherwise). *)
Lemma sub_diag (x : float) : finite x = true -> (x - x)%float = zero.
Proof.
  unfold finite. intros H. apply Prim2SF_inj. rewrite sub_spec.
  change (Prim2SF zero) with (S754_zero false).
  destruct (Prim2SF x) as [[]|[]| |s m e]; try done.
  unfold SF64sub, SFsub. rewrite Z.min_id, shl_align_same. cbn [fst].
  by rewrite Z.sub_diag.
Qed.

Lemma finite_defined (x : float) : finite x = true -> is_nan x = false.
Proof.
  unfold finite. intros H. apply is_nan_false. by destruct (Prim2SF x).
Qed.

End F64Facts.

(** ** Binary64 division of a smaller by a larger positive number *)

Module F64Division.
Import F64 F64Facts.
Local Open Scope Z_scope.

Lemma digits2_pos_bounds (p : positive) :
  2 ^ (Z.pos (digits2_pos p) - 1) <= Z.pos p < 2 ^ Z.pos (digits2_pos p).
Proof.
  induction p as [p IH|p IH|]; cbn [digits2_pos].
  - rewrite Pos2Z.inj_succ.
    replace (Z.succ (Z.pos (digits2_pos p)) - 1) with (Z.succ (Z.pos (digits2_pos p) - 1)) by lia.
    rewrite !Z.pow_succ_r by lia. lia.
  - rewrite Pos2Z.inj_succ.
    replace (Z.succ (Z.pos (digits2_pos p)) - 1) with (Z.succ (Z.pos (digits2_pos p) - 1)) by lia.
    rewrite !Z.pow_succ_r by lia. lia.
  - cbn. lia.
Qed.

Lemma Zdigits2_le (q k : Z) : 0 <= q -> 0 <= k -> q < 2 ^ k -> Zdigits2 q <= k.
Proof.
  intros Hq Hk Hlt. destruct q as [|p|p]; cbn [Zdigits2]; [lia| |lia].
  pose proof (digits2_pos_bounds p) as [Hlo _].
  destruct (Z.le_gt_cases (Z.pos (digits2_pos p)) k) as [|Hgt]; [assumption|].
  assert (2 ^ k <= 2 ^ (Z.pos (digits2_pos p) - 1)) by (apply Z.pow_le_mono_r; lia).
  lia.
Qed.

Lemma digits2_pos_mono (p p' : positive) :
  (p <= p')%positive -> Z.pos (digits2_pos p) <= Z.pos (digits2_pos p').
Proof.
  intros Hle. pose proof (digits2_pos_bounds p) as [Hlo _].
  pose proof (digits2_pos_bounds p') as [_ Hhi].
  destruct (Z.le_gt_cases (Z.pos (digits2_pos p)) (Z.pos (digits2_pos p'))) as [|Hgt]; [assumption|].
  assert (2 ^ Z.pos (digits2_pos p') <= 2 ^ (Z.pos (digits2_pos p) - 1)) by (apply Z.pow_le_mono_r; lia).
  lia.
Qed.

Lemma iter_pos_nat {A : Type} (f : A -> A) (p : positive) (x : A) :
  SpecFloat.iter_pos f p x = Nat.iter (Pos.to_nat p) f x.
Proof.
  revert x. induction p as [p IH|p IH|]; intros x; cbn [SpecFloat.iter_pos].
  - rewrite !IH, Pos2Nat.inj_xI.
    replace (S (2 * Pos.to_nat p))%nat with (Pos.to_nat p + (Pos.to_nat p + 1))%nat by lia.
    rewrite !Nat.iter_add. reflexivity.
  - rewrite !IH, Pos2Nat.inj_xO.
    replace (2 * Pos.to_nat p)%nat with (Pos.to_nat p + Pos.to_nat p)%nat by lia.
    rewrite Nat.iter_add. reflexivity.
  - reflexivity.
Qed.

Lemma shr_1_spec (mrs : shr_record) :
  0 <= shr_m mrs ->
  shr_m (shr_1 mrs) = shr_m mrs / 2 /\ shr_r (shr_1 mrs) = Z.odd (shr_m mrs).
Proof.
  destruct mrs as [m r s]. cbn [shr_m]. intros Hm. rewrite <- Z.div2_div.
  destruct m as [|[p|p|]|p]; try lia; split; reflexivity.
Qed.

Lemma shr_iter_spec (k : nat) (mrs : shr_record) :
  0 <= shr_m mrs ->
  shr_m (Nat.iter k shr_1 mrs) = shr_m mrs / 2 ^ Z.of_nat k /\
  (forall k', k = S k' ->
     shr_r (Nat.iter k shr_1 mrs) = Z.odd (shr_m mrs / 2 ^ Z.of_nat k')).
Proof.
  intros Hm. induction k as [|k [IHm IHr]].
  - cbn. split; [now rewrite Z.div_1_r|discriminate].
  - change (Nat.iter (S k) shr_1 mrs) with (shr_1 (Nat.iter k shr_1 mrs)).
    assert (Hk : 0 <= shr_m (Nat.iter k shr_1 mrs)).
    { rewrite IHm. apply Z.div_pos; [assumption|]. apply Z.pow_pos_nonneg; lia. }
    destruct (shr_1_spec _ Hk) as [Hm1 Hr1]. split.
    + rewrite Hm1, IHm, Nat2Z.inj_succ, Z.pow_succ_r by lia.
      rewrite Z.div_div; try lia. f_equal. lia.
    + intros k' [= <-]. now rewrite Hr1, IHm.
Qed.

Lemma shr_m_of_loc (m : Z) (l : location) : shr_m (shr_record_of_loc m l) = m.
Proof. destruct l as [|[]]; reflexivity. Qed.

Lemma shr_spec (m e n : Z) (l : location) :
  0 <= m ->
  (n <= 0 /\ shr (shr_record_of_loc m l) e n = (shr_record_of_loc m l, e)) \/
  (0 < n /\ exists mrs,
     shr (shr_record_of_loc m l) e n = (mrs, e + n) /\
     shr_m mrs = m / 2 ^ n /\ shr_r mrs = Z.odd (m / 2 ^ (n - 1))).
Proof.
  intros Hm. destruct n as [|p|p]; [left; split; [lia|reflexivity]| |left; split; [lia|reflexivity]].
  right. split; [lia|]. eexists. split; [reflexivity|].
  rewrite iter_pos_nat.
  destruct (shr_iter_spec (Pos.to_nat p) (shr_record_of_loc m l)) as [Hsm Hsr].
  { now rewrite shr_m_of_loc. }
  rewrite shr_m_of_loc in *. rewrite positive_nat_Z in Hsm. split; [assumption|].
  destruct (Pos.to_nat p) as [|k'] eqn:Ek; [lia|].
  rewrite (Hsr k' eq_refl).
  replace (Z.pos p) with (Z.of_nat (S k')) by (rewrite <- Ek; apply positive_nat_Z).
  now replace (Z.of_nat (S k') - 1) with (Z.of_nat k') by lia.
Qed.

Lemma round_nearest_even_bounds (m : Z) (l : location) :
  m <= round_nearest_even m l <= m + 1.
Proof. destruct l as [|[]]; cbn; try lia. destruct (Z.even m); lia. Qed.

Lemma round_nearest_even_no_round_bit (mrs : shr_record) :
  shr_r mrs = false ->
  round_nearest_even (shr_m mrs) (loc_of_shr_record mrs) = shr_m mrs.
Proof. destruct mrs as [m [] []]; cbn; intros H; try discriminate; reflexivity. Qed.

Lemma new_location_exact (m2 : Z) : new_location m2 0 = loc_Exact.
Proof. unfold new_location. destruct (Z.even m2); reflexivity. Qed.

Lemma bounded_inv (m : positive) (e : Z) :
  bounded prec emax m e = true ->
  -1074 <= e <= 971 /\ Z.pos (digits2_pos m) <= 53 /\
  (-1074 < e -> Z.pos (digits2_pos m) = 53).
Proof.
  unfold bounded, canonical_mantissa, fexp, emin, prec, emax.
  intros H. apply andb_true_iff in H as [Hc Hb].
  apply Z.eqb_eq in Hc. apply Z.leb_le in Hb. lia.
Qed.

(** The quotient of two positive binary64 numbers, the dividend smaller
    than the divisor, truncates to 0. *)
Lemma SFdiv_lt_truncates (m1 m2 : positive) (e1 e2 : Z) :
  bounded prec emax m1 e1 = true -> bounded prec emax m2 e2 = true ->
  e1 < e2 \/ (e1 = e2 /\ Z.pos m1 < Z.pos m2) ->
  SF64div (S754_finite false m1 e1) (S754_finite false m2 e2) = S754_zero false \/
  exists m e, SF64div (S754_finite false m1 e1) (S754_finite false m2 e2)
              = S754_finite false m e /\ Z.shiftl (Z.pos m) e = 0.
Proof.
  intros Hb1 Hb2 Hlt.
  apply bounded_inv in Hb1 as (He1 & Hd1 & Hn1).
  apply bounded_inv in Hb2 as (He2 & Hd2 & Hn2).
  pose proof (digits2_pos_bounds m1) as [Hlo1 Hhi1].
  pose proof (digits2_pos_bounds m2) as [Hlo2 Hhi2].
  set (d1 := Z.pos (digits2_pos m1)) in *. set (d2 := Z.pos (digits2_pos m2)) in *.
  unfold SF64div, SFdiv, SFdiv_core_binary. cbn [Zdigits2 xorb]. fold d1 d2.
  set (e' := Z.min (fexp prec emax (d1 + e1 - (d2 + e2))) (e1 - e2)).
  set (s := e1 - e2 - e').
  (* the magnitudes *)
  assert (HD : d1 + e1 - (d2 + e2) <= 0).
  { destruct Hlt as [Hlt|[-> Hlt]].
    - rewrite Hn2 by lia. lia.
    - assert (d1 <= d2) by (apply digits2_pos_mono; lia). lia. }
  assert (He' : e' <= -53) by (unfold e', fexp, emin, prec, emax; lia).
  assert (Hs : 0 <= s) by (unfold s, e'; lia).
  assert (H53a : Z.pos m1 < 2 ^ 53).
  { assert (2 ^ d1 <= 2 ^ 53) by (apply Z.pow_le_mono_r; lia). lia. }
  assert (H53b : Z.pos m2 < 2 ^ 53).
  { assert (2 ^ d2 <= 2 ^ 53) by (apply Z.pow_le_mono_r; lia). lia. }
  (* x / y <= 1 - 2^-53 *)
  assert (HV : Z.pos m1 * 2 ^ 53 <= (2 ^ 53 - 1) * (Z.pos m2 * 2 ^ (e2 - e1))).
  { destruct Hlt as [Hlt|[-> Hlt]].
    - assert (2 ^ 52 <= Z.pos m2) by (rewrite Hn2 in Hlo2 by lia; exact Hlo2).
      assert (2 ^ 1 <= 2 ^ (e2 - e1)) by (apply Z.pow_le_mono_r; lia).
      change (2 ^ 1) with 2 in *. change (2 ^ 52) with 4503599627370496 in *.
      change (2 ^ 53) with 9007199254740992 in *. nia.
    - rewrite Z.sub_diag, Z.pow_0_r. change (2 ^ 53) with 9007199254740992 in *. lia. }
  set (m' := match s with Z.pos _ => Z.shiftl (Z.pos m1) s | 0 => Z.pos m1 | Z.neg _ => 0 end).
  assert (Hm' : m' = Z.pos m1 * 2 ^ s).
  { unfold m'. destruct s as [|p|p] eqn:Es; [rewrite Z.pow_0_r; lia| |lia].
    apply Z.shiftl_mul_pow2. lia. }
  clearbody m'.
  pose proof (Z_div_mod m' (Z.pos m2) ltac:(lia)) as Hdm.
  destruct (Z.div_eucl m' (Z.pos m2)) as [q r]. destruct Hdm as [Hdm Hr].
  set (P := 2 ^ (- e' - 53)).
  assert (HP : 1 <= P) by (unfold P; apply (Z.pow_le_mono_r 2 0); lia).
  assert (HPe : 2 ^ (e2 - e1) * 2 ^ s = 2 ^ 53 * P).
  { unfold P. rewrite <- !Z.pow_add_r by lia. f_equal. unfold s. lia. }
  assert (Hq0 : 0 <= q) by nia.
  assert (Hq : q <= (2 ^ 53 - 1) * P /\ (q = (2 ^ 53 - 1) * P -> r = 0)).
  { assert (m' * 2 ^ 53 <= (2 ^ 53 - 1) * Z.pos m2 * (2 ^ 53 * P)).
    { rewrite Hm', <- HPe.
      assert (0 <= 2 ^ s) by (apply Z.pow_nonneg; lia). nia. }
    change (2 ^ 53) with 9007199254740992 in *. nia. }
  destruct Hq as [Hq Hexact].
  assert (H2e : forall e, e <= -53 -> 2 ^ (- e) = 2 ^ 53 * 2 ^ (- e - 53)).
  { intros e He. rewrite <- Z.pow_add_r by lia. f_equal. lia. }
  (* the first shift and the rounding *)
  assert (Hround : exists mrs' ea,
            shr_fexp prec emax q e' (new_location (Z.pos m2) r) = (mrs', ea) /\
            ea <= -53 /\
            0 <= round_nearest_even (shr_m mrs') (loc_of_shr_record mrs') < 2 ^ (- ea)).
  { unfold shr_fexp.
    set (n := fexp prec emax (Zdigits2 q + e') - e').
    set (loc := new_location (Z.pos m2) r).
    destruct (shr_spec q e' n loc Hq0) as [[Hn ->]|(Hn & mrs & -> & Hma & Hra)].
    - exists (shr_record_of_loc q loc), e'. split; [reflexivity|]. split; [assumption|].
      rewrite (H2e e' He'). fold P.
      pose proof (round_nearest_even_bounds (shr_m (shr_record_of_loc q loc))
                    (loc_of_shr_record (shr_record_of_loc q loc))) as Hb.
      rewrite shr_m_of_loc in *.
      destruct (Z.eq_dec q ((2 ^ 53 - 1) * P)) as [Hqe|Hqne].
      + subst loc. rewrite (Hexact Hqe) in *. rewrite new_location_exact in *.
        change (round_nearest_even q (loc_of_shr_record (shr_record_of_loc q loc_Exact))) with q.
        change (2 ^ 53) with 9007199254740992 in *. lia.
      + change (2 ^ 53) with 9007199254740992 in *. lia.
    - assert (Hdq : Zdigits2 q <= - e').
      { apply Zdigits2_le; [assumption|lia|]. rewrite (H2e e' He'). fold P.
        change (2 ^ 53) with 9007199254740992 in *. lia. }
      assert (Hea : e' + n <= -53) by (unfold n, fexp, emin, prec, emax; lia).
      exists mrs, (e' + n). split; [reflexivity|]. split; [assumption|].
      rewrite (H2e _ Hea). set (Pa := 2 ^ (- (e' + n) - 53)).
      assert (HPa : 1 <= Pa) by (unfold Pa; apply (Z.pow_le_mono_r 2 0); lia).
      assert (HPn : P = Pa * 2 ^ n).
      { unfold P, Pa. rewrite <- Z.pow_add_r by lia. f_equal. lia. }
      assert (H2n : 0 < 2 ^ n) by (apply Z.pow_pos_nonneg; lia).
      assert (Hma' : 0 <= shr_m mrs <= (2 ^ 53 - 1) * Pa).
      { rewrite Hma. split; [apply Z.div_pos; lia|].
        apply Z.div_le_upper_bound; [lia|]. rewrite HPn in Hq. lia. }
      pose proof (round_nearest_even_bounds (shr_m mrs) (loc_of_shr_record mrs)) as Hb.
      destruct (Z.eq_dec (shr_m mrs) ((2 ^ 53 - 1) * Pa)) as [Hqe|Hqne].
      + assert (Hqq : q = (2 ^ 53 - 1) * Pa * 2 ^ n).
        { pose proof (Z.mul_div_le q (2 ^ n) H2n) as Hle.
          rewrite <- Hma, Hqe in Hle. rewrite HPn in Hq. lia. }
        assert (Hrb : shr_r mrs = false).
        { rewrite Hra, Hqq.
          replace (2 ^ n) with (2 * 2 ^ (n - 1))
            by (rewrite <- Z.pow_succ_r by lia; f_equal; lia).
          replace ((2 ^ 53 - 1) * Pa * (2 * 2 ^ (n - 1)))
            with ((2 ^ 53 - 1) * Pa * 2 * 2 ^ (n - 1)) by lia.
          rewrite Z.div_mul by (apply Z.pow_nonzero; lia).
          rewrite Z.odd_mul. cbn. apply andb_false_r. }
        rewrite (round_nearest_even_no_round_bit mrs Hrb).
        change (2 ^ 53) with 9007199254740992 in *. lia.
      + change (2 ^ 53) with 9007199254740992 in *. lia. }
  destruct Hround as (mrs' & ea & Hshr & Hea & Hmb).
  unfold binary_round_aux. rewrite Hshr.
  set (mb := round_nearest_even (shr_m mrs') (loc_of_shr_record mrs')) in *.
  unfold shr_fexp. set (n2 := fexp prec emax (Zdigits2 mb + ea) - ea).
  destruct (shr_spec mb ea n2 loc_Exact (proj1 Hmb))
    as [[Hk2 ->]|(Hk2 & mrs2 & -> & Hmc & _)].
  - rewrite shr_m_of_loc. destruct mb as [|m|m]; [left; reflexivity| |lia].
    right. exists m, ea.
    replace (ea <=? emax - prec) with true
      by (symmetry; apply Z.leb_le; unfold emax, prec; lia).
    split; [reflexivity|].
    rewrite Z.shiftl_div_pow2 by lia. apply Z.div_small. lia.
  - assert (H2n : 0 < 2 ^ n2) by (apply Z.pow_pos_nonneg; lia).
    assert (Hmc0 : 0 <= shr_m mrs2) by (rewrite Hmc; apply Z.div_pos; lia).
    destruct (shr_m mrs2) as [|m|m] eqn:Em; [left; reflexivity| |lia].
    right. exists m, (ea + n2).
    assert (Hge : 2 ^ n2 <= mb).
    { destruct (Z.lt_ge_cases mb (2 ^ n2)) as [Hsm|]; [|assumption].
      rewrite Z.div_small in Hmc by lia. discriminate. }
    assert (Hn2lt : n2 < - ea).
    { destruct (Z.lt_ge_cases n2 (- ea)) as [|Hge']; [assumption|].
      assert (2 ^ (- ea) <= 2 ^ n2) by (apply Z.pow_le_mono_r; lia). lia. }
    replace (ea + n2 <=? emax - prec) with true
      by (symmetry; apply Z.leb_le; unfold emax, prec; lia).
    split; [reflexivity|].
    rewrite Z.shiftl_div_pow2 by lia. apply Z.div_small. split; [lia|].
    rewrite Hmc. apply Z.div_lt_upper_bound; [lia|].
    rewrite <- Z.pow_add_r by lia. replace (n2 + - (ea + n2)) with (- ea) by lia. lia.
Qed.

(** [int(w / d)] is 0 whenever [0 < w < d]: the correctly rounded
    quotient is at most 1 - 2^-53 (or is 0 when [d] is infinite). *)
Lemma py_int_div_lt (w d : float) :
  ltb 0 w = true -> ltb w d = true -> py_int (w / d) = Return 0.
Proof.
  rewrite !ltb_iff. unfold fkey, key_lt, py_int. rewrite div_spec.
  change (Prim2SF 0) with (S754_zero false).
  intros (_ & _ & H0) (_ & _ & Hwd).
  pose proof (Prim2SF_valid w) as Vw. pose proof (Prim2SF_valid d) as Vd.
  destruct (Prim2SF w) as [[]|[]| |[] m1 e1]; cbn [key fst snd] in H0; try lia;
    destruct (Prim2SF d) as [[]|[]| |[] m2 e2]; cbn [key fst snd] in Hwd; try lia.
  - reflexivity.
  - destruct (SFdiv_lt_truncates m1 m2 e1 e2 Vw Vd) as [->|(m & e & -> & ->)];
      [lia|reflexivity..].
Qed.

End F64Division.


(** ** Slices and the growth-rate array *)

Import F64 F64Facts.

Lemma slice_bound_nonneg (n : nat) (k : Z) :
  (0 <= k)%Z -> slice_bound n k = Nat.min (Z.to_nat k) n.
Proof.
  intros Hk. unfold slice_bound.
  destruct (Z.ltb_spec k 0); lia.
Qed.

Lemma slice_bound_neg (n : nat) (k : Z) :
  (0 < k)%Z -> slice_bound n (- k) = n - Z.to_nat k.
Proof.
  intros Hk. unfold slice_bound.
  destruct (Z.ltb_spec (- k) 0); lia.
Qed.

Lemma slice_from_nonneg {A : Type} (a : list A) (k : Z) :
  (0 <= k)%Z -> slice_from a k = drop (Z.to_nat k) a.
Proof.
  intros Hk. unfold slice_from. rewrite slice_bound_nonneg by done.
  destruct (Nat.le_gt_cases (Z.to_nat k) (length a)).
  - by rewrite Nat.min_l.
  - rewrite Nat.min_r by lia. by rewrite !drop_ge by lia.
Qed.

Lemma slice_to_neg {A : Type} (a : list A) (k : Z) :
  (0 < k)%Z -> slice_to a (- k) = take (length a - Z.to_nat k) a.
Proof. intros Hk. unfold slice_to. by rewrite slice_bound_neg. Qed.

Lemma broadcast2_same_length (f : float -> float -> float) (a b : list float) :
  length a = length b -> broadcast2 f a b = Return (zip_with f a b).
Proof. intros H. unfold broadcast2. by rewrite decide_True. Qed.

Section GrowthRate.

Variable np_log : float -> float.

Lemma growth_rate_of_eq (t phi2 : list float) (k : Z) :
  length phi2 = length t -> (1 <= k)%Z ->
  growth_rate_of np_log t phi2 k = Return (growth_array np_log t phi2 (Z.to_nat k)).
Proof.
  intros Hlen Hk. unfold growth_rate_of, growth_array, np_sub, np_div, np_full.
  rewrite !slice_from_nonneg, !slice_to_neg by lia.
  set (L := map np_log phi2).
  assert (HL : length L = length t) by (unfold L; by rewrite length_map).
  rewrite broadcast2_same_length
    by (rewrite length_drop, length_take; lia).
  cbn [bind].
  rewrite broadcast2_same_length
    by (rewrite length_drop, length_take; lia).
  cbn [bind].
  rewrite broadcast2_same_length
    by (rewrite !length_zip_with, !length_drop, !length_take; lia).
  cbn [bind]. unfold setitem_slice_from.
  rewrite length_replicate, slice_bound_nonneg by lia.
  rewrite decide_True
    by (rewrite !length_zip_with, !length_drop, !length_take; lia).
  rewrite take_replicate.
  by replace (Nat.min (Nat.min (Z.to_nat k) (length t)) (length t))
    with (Nat.min (Z.to_nat k) (length t)) by lia.
Qed.

Lemma growth_array_length (t phi2 : list float) (k : nat) :
  length phi2 = length t -> length (growth_array np_log t phi2 k) = length t.
Proof.
  intros Hlen. unfold growth_array.
  rewrite length_app, length_replicate, !length_zip_with, !length_drop,
    !length_take, !length_map. lia.
Qed.

Lemma growth_array_missing (t phi2 : list float) (k i : nat) :
  i < k -> i < length t -> growth_array np_log t phi2 k !! i = Some nan.
Proof.
  intros Hik Hi. unfold growth_array.
  rewrite lookup_app_l by (rewrite length_replicate; lia).
  apply lookup_replicate_2. lia.
Qed.

Lemma growth_array_lookup (t phi2 : list float) (k i : nat) :
  length phi2 = length t -> k <= i < length t ->
  growth_array np_log t phi2 k !! i = finite_difference np_log t phi2 k i.
Proof.
  intros Hlen [Hki Hi]. unfold growth_array, finite_difference.
  rewrite lookup_app_r by (rewrite length_replicate; lia).
  rewrite length_replicate, Nat.min_l by lia.
  rewrite !lookup_zip_with, !lookup_drop, !lookup_take_lt by (rewrite ?length_map; lia).
  replace (k + (i - k)) with i by lia.
  rewrite !list_lookup_fmap.
  destruct (phi2 !! i) as [fi|] eqn:E1; [|apply lookup_ge_None in E1; lia].
  destruct (phi2 !! (i - k)) as [fk|] eqn:E2; [|apply lookup_ge_None in E2; lia].
  destruct (t !! i) as [ti|] eqn:E3; [|apply lookup_ge_None in E3; lia].
  destruct (t !! (i - k)) as [tk|] eqn:E4; [|apply lookup_ge_None in E4; lia].
  reflexivity.
Qed.

End GrowthRate.

(** ** The peak search *)

(** On an array without NaN, the loop of [np.argmax] started with the
    running maximum [mp] either keeps it, or ends on the first entry that
    attains the maximum of the remaining array. *)
Lemma argmax_loop_spec (a : list float) (mp : float) (mi i : nat) :
  is_nan mp = false ->
  Forall (fun x => is_nan x = false) a ->
  (argmax_loop mp mi i a = mi /\ Forall (fun x => leb x mp = true) a) \/
  (exists j x, argmax_loop mp mi i a = i + j /\ a !! j = Some x /\
     ltb mp x = true /\
     (forall j' y, a !! j' = Some y -> leb y x = true) /\
     (forall j' y, j' < j -> a !! j' = Some y -> ltb y x = true)).
Proof.
  intros Hmp Ha. revert mp mi i Hmp.
  induction Ha as [|x a Hx Ha IH]; intros mp mi i Hmp; cbn [argmax_loop].
  - left. by split.
  - destruct (leb x mp) eqn:Exm; cbn [negb].
    + destruct (IH mp mi (S i) Hmp) as [[-> Hall]|(j & y & -> & Hj & Hlt & Hmax & Hfirst)].
      * left. split; [done|]. by constructor.
      * right. exists (S j), y. split_and!; [lia|done|done| |].
        -- intros [|j'] z; cbn; [intros [= <-]|by apply Hmax].
           apply ltb_leb. by apply (leb_ltb_trans _ mp).
        -- intros [|j'] z Hj'; cbn; [intros [= <-]|apply Hfirst; lia].
           by apply (leb_ltb_trans _ mp).
    + rewrite Hx.
      assert (Hlt : ltb mp x = true).
      { rewrite leb_negb_ltb in Exm by done. by apply negb_false_iff in Exm. }
      destruct (IH x i (S i) Hx) as [[-> Hall]|(j & y & -> & Hj & Hlt' & Hmax & Hfirst)].
      * right. exists 0, x. split_and!; [lia|done|done| |].
        -- intros [|j'] z; cbn; [intros [= <-]; by apply leb_refl|].
           intros Hz. rewrite Forall_forall in Hall. apply Hall.
           apply list_elem_of_lookup. by exists j'.
        -- intros j' z Hj'. lia.
      * right. exists (S j), y. split_and!; [lia|done| | |].
        -- by apply (ltb_trans _ x).
        -- intros [|j'] z; cbn; [intros [= <-]; by apply ltb_leb|by apply Hmax].
        -- intros [|j'] z Hj'; cbn; [intros [= <-]; done|apply Hfirst; lia].
Qed.

(** [np.argmax] on a non-empty array without NaN returns the first index
    of the maximum. *)
Lemma np_argmax_spec (a : list float) :
  a <> [] -> Forall (fun x => is_nan x = false) a ->
  exists p v, np_argmax a = Return p /\ a !! p = Some v /\
    (forall j y, a !! j = Some y -> leb y v = true) /\
    (forall j y, j < p -> a !! j = Some y -> ltb y v = true).
Proof.
  destruct a as [|x a]; [done|]. intros _ Ha.
  apply Forall_cons in Ha as [Hx Ha]. cbn [np_argmax]. rewrite Hx.
  destruct (argmax_loop_spec a x 0 1 Hx Ha)
    as [[-> Hall]|(j & y & -> & Hj & Hlt & Hmax & Hfirst)].
  - exists 0, x. split_and!; [done|done| |intros; lia].
    intros [|j] z; cbn; [intros [= <-]; by apply leb_refl|].
    intros Hz. rewrite Forall_forall in Hall. apply Hall.
    apply list_elem_of_lookup. by exists j.
  - exists (S j), y. split_and!; [done|done| |].
    + intros [|j'] z; cbn; [intros [= <-]; by apply ltb_leb|by apply Hmax].
    + intros [|j'] z Hj'; cbn; [intros [= <-]; done|apply Hfirst; lia].
Qed.

Lemma replace_nan_lookup (v : float) (g : list float) (i : nat) :
  replace_nan v g !! i = (fun x => if is_nan x then v else x) <$> g !! i.
Proof. unfold replace_nan. apply list_lookup_fmap. Qed.

Lemma replace_nan_defined (g : list float) :
  Forall (fun x => is_nan x = false) (replace_nan neg_infinity g).
Proof.
  unfold replace_nan. apply Forall_fmap, Forall_forall. intros x _. cbn.
  by destruct (is_nan x) eqn:E.
Qed.

(** The first defined entry of an array that is not all NaN. *)
Lemma first_defined (g : list float) :
  ~ Forall (fun x => is_nan x = true) g ->
  exists q y, g !! q = Some y /\ is_nan y = false /\
    forall j z, j < q -> g !! j = Some z -> is_nan z = true.
Proof.
  induction g as [|x g IH]; intros Hg; [by destruct Hg|].
  destruct (is_nan x) eqn:Ex.
  - destruct IH as (q & y & Hq & Hy & Hfirst).
    { intros Hall. apply Hg. by constructor. }
    exists (S q), y. split_and!; [done|done|].
    intros [|j] z Hj; cbn; [by intros [= <-]|]. apply Hfirst. lia.
  - exists 0, x. split_and!; [done|done|]. intros; lia.
Qed.

Lemma forallb_is_nan (g : list float) :
  forallb is_nan g = true <-> Forall (fun x => is_nan x = true) g.
Proof.
  rewrite forallb_forall, Forall_forall.
  split; intros H x Hx; apply H; by apply list_elem_of_In.
Qed.

Lemma np_nanargmax_all_nan (g : list float) :
  g <> [] -> Forall (fun x => is_nan x = true) g ->
  np_nanargmax g = Raise (ValueError AllNanSlice).
Proof.
  intros Hne Hall. unfold np_nanargmax.
  rewrite bool_decide_eq_false_2 by done.
  apply forallb_is_nan in Hall. by rewrite Hall.
Qed.

(** [np.nanargmax] on an array with a defined entry: it returns the first
    peak [q], or, when every defined entry is [-inf], index 0, which is
    followed by NaNs only up to [q]. *)
Lemma np_nanargmax_spec (g : list float) :
  ~ Forall (fun x => is_nan x = true) g ->
  exists p q, np_nanargmax g = Return p /\ first_peak g q /\ p <= q /\
    forall j y, p <= j < q -> g !! j = Some y -> is_nan y = true.
Proof.
  intros Hg.
  assert (Hne : g <> []) by (intros ->; by apply Hg).
  unfold np_nanargmax.
  destruct (forallb is_nan g) eqn:Eall; [by apply forallb_is_nan in Eall|].
  rewrite andb_false_r.
  destruct (np_argmax_spec (replace_nan neg_infinity g))
    as (p & v & -> & Hp & Hmax & Hfirst).
  { unfold replace_nan. by destruct g. }
  { apply replace_nan_defined. }
  rewrite replace_nan_lookup in Hp.
  destruct (g !! p) as [x|] eqn:Ex; [|done]. cbn in Hp.
  assert (Hmax' : forall j y, g !! j = Some y -> is_nan y = false -> leb y v = true).
  { intros j y Hj Hy. apply (Hmax j). rewrite replace_nan_lookup, Hj. cbn.
    by rewrite Hy. }
  destruct (is_nan x) eqn:Enx; injection Hp as <-.
  - destruct (first_defined g Hg) as (q & y & Hq & Hy & Hnan).
    assert (p = 0) as ->.
    { destruct p as [|p]; [done|]. exfalso.
      destruct g as [|z g]; [done|].
      specialize (Hfirst 0 (if is_nan z then neg_infinity else z)).
      rewrite replace_nan_lookup in Hfirst. cbn in Hfirst.
      specialize (Hfirst ltac:(lia) eq_refl).
      assert (Hz : is_nan (if is_nan z then neg_infinity else z) = false)
        by (by destruct (is_nan z) eqn:E).
      pose proof (neg_infinity_leb _ Hz) as Hle.
      rewrite leb_negb_ltb in Hle by done. by rewrite Hfirst in Hle. }
    exists 0, q. split_and!; [done| |lia|].
    + exists y. split_and!; [done|done| |].
      * intros j z Hj Hz. apply (leb_trans _ neg_infinity).
        -- by apply (Hmax' j).
        -- by apply neg_infinity_leb.
      * intros j z Hj Hjz Hz. rewrite (Hnan j z) in Hz; done.
    + intros j z [_ Hj]. by apply Hnan.
  - exists p, p. split_and!; [done| |lia|intros; lia].
    exists x. split_and!; [done|done|done|].
    intros j y Hj Hjy Hy. apply (Hfirst j); [done|].
    rewrite replace_nan_lookup, Hjy. cbn. by rewrite Hy.
Qed.

(** The second case happens: [-inf] ties with the replaced NaN before it. *)
Lemma np_nanargmax_ties_with_missing :
  np_nanargmax [nan; neg_infinity] = Return 0 /\ first_peak [nan; neg_infinity] 1.
Proof.
  split; [reflexivity|].
  eexists. split_and!; [reflexivity|reflexivity| |].
  - intros j y Hj Hy.
    do 2 (destruct j as [|j]; [injection Hj as <-; by vm_compute in Hy |- *|]).
    done.
  - intros j y Hlt Hj Hy.
    destruct j as [|j]; [injection Hj as <-; by vm_compute in Hy|lia].
Qed.

(** The first peak is unique. *)
Lemma first_peak_unique (g : list float) (q q' : nat) :
  first_peak g q -> first_peak g q' -> q = q'.
Proof.
  assert (H : forall a b, first_peak g a -> first_peak g b -> ~ a < b).
  { intros a b (x & Ha & Hx & Hmax & _) (y & Hb & Hy & _ & Hfirst) Hab.
    pose proof (Hfirst a x Hab Ha Hx) as Hlt.
    pose proof (Hmax b y Hb Hy) as Hle.
    rewrite leb_negb_ltb in Hle by done. by rewrite Hlt in Hle. }
  intros H1 H2. pose proof (H _ _ H1 H2). pose proof (H _ _ H2 H1). lia.
Qed.

(** ** The threshold scan *)

Lemma compress_first (f : float -> bool) (g t : list float) :
  length g = length t ->
  match compress (map f g) t with
  | x :: _ =>
      exists i y, g !! i = Some y /\ f y = true /\ t !! i = Some x /\
        forall j z, j < i -> g !! j = Some z -> f z = false
  | [] => forall j z, g !! j = Some z -> f z = false
  end.
Proof.
  revert t. induction g as [|y g IH]; intros [|x t] Hlen; try done.
  cbn [map compress]. destruct (f y) eqn:Ey.
  - exists 0, y. split_and!; [done|done|done|intros; lia].
  - injection Hlen as Hlen. specialize (IH t Hlen).
    destruct (compress (map f g) t) as [|x' rest].
    + intros [|j] z; cbn; [by intros [= <-]|apply IH].
    + destruct IH as (i & y' & Hi & Hy' & Hti & Hfirst).
      exists (S i), y'. split_and!; [done|done|done|].
      intros [|j] z Hj; cbn; [by intros [= <-]|apply Hfirst; lia].
Qed.

Lemma first_peak_defined (g : list float) (q : nat) :
  first_peak g q -> ~ Forall (fun x => is_nan x = true) g.
Proof.
  intros (x & Hq & Hx & _) Hall. rewrite Forall_forall in Hall.
  assert (is_nan x = true); [|congruence].
  apply Hall, list_elem_of_lookup. by exists q.
Qed.

(** The search of the code meets its specification. *)
Lemma saturation_search_spec (t g : list float) (threshold : float) :
  g <> [] -> length g = length t ->
  search_spec t g threshold (saturation_search t g threshold).
Proof.
  intros Hne Hlen. unfold search_spec, saturation_search.
  destruct (decide (Forall (fun x => is_nan x = true) g)) as [Hall|Hall].
  { left. split; [done|]. by rewrite np_nanargmax_all_nan. }
  right. destruct (np_nanargmax_spec g Hall) as (p & q & -> & Hq & Hpq & Hnan).
  exists q. split; [done|]. cbn [bind].
  rewrite !slice_from_nonneg, Nat2Z.id by lia.
  unfold getitem_mask.
  rewrite decide_True by (rewrite length_map, !length_drop; lia).
  cbn [bind].
  pose proof (compress_first (fun x => ltb x threshold) (drop p g) (drop p t)) as Hc.
  specialize (Hc ltac:(rewrite !length_drop; lia)).
  destruct (compress _ _) as [|x rest].
  - right. split; [|done]. intros j y Hj Hjy.
    apply (Hc (j - p)). rewrite lookup_drop. by replace (p + (j - p)) with j by lia.
  - left. destruct Hc as (i & y & Hi & Hy & Hti & Hfirst).
    rewrite lookup_drop in Hi, Hti.
    exists (p + i), x. split; [|done].
    assert (Hqi : q <= p + i).
    { destruct (Nat.le_gt_cases q (p + i)); [done|].
      pose proof (Hnan (p + i) y ltac:(lia) Hi) as Hn.
      destruct (ltb_defined _ _ Hy) as [Hd _]. congruence. }
    split_and!; [done|by exists y|].
    intros j z Hj Hjz. apply (Hfirst (j - p)); [lia|].
    rewrite lookup_drop. by replace (p + (j - p)) with j by lia.
Qed.

Lemma first_below_unique (g : list float) (threshold : float) (p i i' : nat) :
  first_below g threshold p i -> first_below g threshold p i' -> i = i'.
Proof.
  assert (H : forall a b, first_below g threshold p a ->
                          first_below g threshold p b -> ~ a < b).
  { intros a b (Hpa & (x & Ha & Hx) & _) (_ & _ & Hfirst) Hab.
    rewrite (Hfirst a x) in Hx; [done|lia|done]. }
  intros H1 H2. pose proof (H _ _ H1 H2). pose proof (H _ _ H2 H1). lia.
Qed.

(** The specification determines the outcome. *)
Lemma search_spec_functional (t g : list float) (threshold : float)
    (r r' : result float) :
  search_spec t g threshold r -> search_spec t g threshold r' -> r = r'.
Proof.
  intros [[Hall ->]|(q & Hq & Hr)] [[Hall' ->]|(q' & Hq' & Hr')]; try done;
    try (by apply first_peak_defined in Hq);
    try (by apply first_peak_defined in Hq').
  rewrite <- (first_peak_unique g q q' Hq Hq') in Hr'.
  destruct Hr as [(i & v & Hi & Hti & ->)|[Hnone ->]],
           Hr' as [(i' & v' & Hi' & Hti' & ->)|[Hnone' ->]]; try done.
  - rewrite <- (first_below_unique _ _ _ _ _ Hi Hi') in Hti'. congruence.
  - destruct Hi as (Hqi & (x & Hx & Hlt) & _).
    rewrite (Hnone' i x Hqi Hx) in Hlt. done.
  - destruct Hi' as (Hqi & (x & Hx & Hlt) & _).
    rewrite (Hnone i' x Hqi Hx) in Hlt. done.
Qed.

(** Leading missing entries do not take part in the search: what holds of
    the series cut at [k] holds of the whole series. *)
Lemma first_peak_shift (g : list float) (k q : nat) :
  (forall j y, j < k -> g !! j = Some y -> is_nan y = true) ->
  first_peak (drop k g) q -> first_peak g (k + q).
Proof.
  intros Hnan (x & Hq & Hx & Hmax & Hfirst). rewrite lookup_drop in Hq.
  exists x. split_and!; [done|done| |].
  - intros j y Hj Hy.
    destruct (Nat.le_gt_cases k j) as [Hkj|Hkj].
    + apply (Hmax (j - k)); [|done].
      rewrite lookup_drop. by replace (k + (j - k)) with j by lia.
    + rewrite (Hnan j y Hkj Hj) in Hy. done.
  - intros j y Hjq Hj Hy.
    destruct (Nat.le_gt_cases k j) as [Hkj|Hkj].
    + apply (Hfirst (j - k)); [lia| |done].
      rewrite lookup_drop. by replace (k + (j - k)) with j by lia.
    + rewrite (Hnan j y Hkj Hj) in Hy. done.
Qed.

Lemma search_spec_shift (t g : list float) (threshold : float) (k : nat)
    (r : result float) :
  (forall j y, j < k -> g !! j = Some y -> is_nan y = true) ->
  search_spec (drop k t) (drop k g) threshold r -> search_spec t g threshold r.
Proof.
  intros Hnan [[Hall ->]|(q & Hq & Hr)].
  - left. split; [|done]. apply Forall_lookup. intros j y Hj.
    destruct (Nat.le_gt_cases k j) as [Hkj|Hkj]; [|by apply (Hnan j)].
    rewrite Forall_lookup in Hall. apply (Hall (j - k)).
    rewrite lookup_drop. by replace (k + (j - k)) with j by lia.
  - right. exists (k + q). split; [by apply first_peak_shift|].
    destruct Hr as [(i & v & (Hqi & (x & Hx & Hlt) & Hfirst) & Hti & ->)|[Hnone ->]].
    + left. exists (k + i), v. rewrite lookup_drop in Hx, Hti.
      split_and!; [|done|done]. unfold first_below.
      split_and!; [lia|by exists x|].
      intros j y Hj Hjy. apply (Hfirst (j - k)); [lia|].
      rewrite lookup_drop. by replace (k + (j - k)) with j by lia.
    + right. split; [|done]. intros j y Hj Hjy.
      apply (Hnone (j - k)); [lia|].
      rewrite lookup_drop. by replace (k + (j - k)) with j by lia.
Qed.

Lemma saturation_search_drop (t g : list float) (threshold : float) (k : nat) :
  length g = length t -> k < length g ->
  (forall j y, j < k -> g !! j = Some y -> is_nan y = true) ->
  saturation_search t g threshold =
  saturation_search (drop k t) (drop k g) threshold.
Proof.
  intros Hlen Hk Hnan.
  apply (search_spec_functional t g threshold).
  - apply saturation_search_spec; [|done]. intros ->. cbn in Hk. lia.
  - apply (search_spec_shift _ _ _ k); [done|].
    apply saturation_search_spec.
    + intros Hd. apply (f_equal length) in Hd. rewrite length_drop in Hd.
      cbn in Hd. lia.
    + rewrite !length_drop. lia.
Qed.


(** ** The search with the missing entries removed *)










(** ** The time coordinate *)

Lemma strictly_increasing_lookup (t : list float) (i j : nat) (x y : float) :
  strictly_increasing t = true -> i < j ->
  t !! i = Some x -> t !! j = Some y -> ltb x y = true.
Proof.
  revert i j x. induction t as [|a t IH]; intros i j x Ht Hij Hi Hj; [done|].
  destruct t as [|b t]; [destruct j as [|j]; [lia|by destruct j]|].
  cbn [strictly_increasing] in Ht. apply andb_true_iff in Ht as [Hab Ht].
  destruct i as [|i], j as [|j]; try lia.
  - injection Hi as <-. destruct j as [|j].
    + by injection Hj as <-.
    + apply (ltb_trans _ b); [done|]. apply (IH 0 (S j)); [done|lia|done|done].
  - apply (IH i j); [done|lia|done|done].
Qed.

Lemma strictly_increasing_defined (t : list float) (i : nat) (x : float) :
  strictly_increasing t = true -> 2 <= length t ->
  t !! i = Some x -> is_nan x = false.
Proof.
  intros Ht Hlen Hi.
  destruct (decide (S i < length t)) as [Hlt|Hge].
  - destruct (lookup_lt_is_Some_2 t (S i) Hlt) as [y Hy].
    pose proof (strictly_increasing_lookup t i (S i) x y Ht ltac:(lia) Hi Hy) as H.
    by apply ltb_defined in H as [? _].
  - apply lookup_lt_Some in Hi as Hi'.
    destruct i as [|i]; [lia|].
    destruct (lookup_lt_is_Some_2 t i ltac:(lia)) as [y Hy].
    pose proof (strictly_increasing_lookup t i (S i) y x Ht ltac:(lia) Hy Hi) as H.
    by apply ltb_defined in H as [_ ?].
Qed.

Lemma strictly_increasing_le (t : list float) (i j : nat) (x y : float) :
  strictly_increasing t = true -> 2 <= length t -> i <= j ->
  t !! i = Some x -> t !! j = Some y -> leb x y = true.
Proof.
  intros Ht Hlen Hij Hi Hj. destruct (decide (i = j)) as [->|Hne].
  - assert (x = y) as -> by congruence. apply leb_refl.
    by apply (strictly_increasing_defined t j).
  - apply ltb_leb. apply (strictly_increasing_lookup t i j); [done|lia|done|done].
Qed.

(** ** The detector *)

Section DetectorFacts.

Variable np_log : float -> float.

Lemma getvar_Some {V : Type} (m : gmap string V) (name : string) (v : V) :
  m !! name = Some v -> getvar m name = Return v.
Proof. intros H. unfold getvar. by rewrite H. Qed.

Lemma detect_unfold (ds : Dataset) (t phi2 : list float) (window threshold : float)
    (k : Z) :
  coords ds !! "t" = Some t -> traces ds !! "phi2" = Some phi2 ->
  window_index t window = Return k ->
  detect_saturation_time np_log ds window threshold =
  (g <- growth_rate_of np_log t phi2 k ;; saturation_search t g threshold).
Proof.
  intros Ht Hphi Hk. unfold detect_saturation_time.
  rewrite (getvar_Some _ _ _ Ht), (getvar_Some _ _ _ Hphi). cbn [bind].
  by rewrite Hk.
Qed.

Lemma window_index_length (t : list float) (window : float) (k : Z) :
  window_index t window = Return k -> 2 <= length t.
Proof.
  unfold window_index, getitem. destruct t as [|a [|b t]]; cbn; try done.
  intros _. lia.
Qed.

(** With a window of at least one sample the detector is the search on the
    growth-rate array. *)
Lemma detect_is_search (ds : Dataset) (t phi2 : list float)
    (window threshold : float) (k : Z) :
  coords ds !! "t" = Some t -> traces ds !! "phi2" = Some phi2 ->
  length phi2 = length t ->
  window_index t window = Return k -> (1 <= k)%Z ->
  growth_rate_of np_log t phi2 k = Return (growth_array np_log t phi2 (Z.to_nat k)) /\
  detect_saturation_time np_log ds window threshold =
  saturation_search t (growth_array np_log t phi2 (Z.to_nat k)) threshold.
Proof.
  intros Ht Hphi Hlen Hk Hk1.
  pose proof (growth_rate_of_eq np_log t phi2 k Hlen Hk1) as Hg.
  split; [done|]. rewrite (detect_unfold ds t phi2 window threshold k) by done.
  by rewrite Hg.
Qed.

Lemma growth_array_nonempty (t phi2 : list float) (k : nat) :
  length phi2 = length t -> 2 <= length t -> growth_array np_log t phi2 k <> [].
Proof.
  intros Hlen Ht Hg. apply (f_equal length) in Hg.
  rewrite growth_array_length in Hg by done. cbn in Hg. lia.
Qed.

Lemma growth_array_missing_nan (t phi2 : list float) (k j : nat) (y : float) :
  length phi2 = length t -> j < k ->
  growth_array np_log t phi2 k !! j = Some y -> is_nan y = true.
Proof.
  intros Hlen Hj Hy. apply lookup_lt_Some in Hy as Hj'.
  rewrite growth_array_length in Hj' by done.
  rewrite growth_array_missing in Hy by done. by injection Hy as <-.
Qed.

(** C1: on a strictly increasing time coordinate of length [N >= 2] with
    strictly positive field values and a window of [1 <= k < N] samples, a
    value returned by [detect_saturation_time] that is not the NaN sentinel
    is [time[i_star]], where [i_peak] is the smallest index attaining the
    maximum over the defined growth rates (all at indices [>= k]) and
    [i_star] is the smallest index [>= i_peak] whose growth rate is below
    the threshold; it is an element of the time array and is
    [>= time[i_peak]]. *)
Theorem detect_returns_first_crossing (ds : Dataset) (t phi2 : list float)
    (window threshold : float) (k : Z) (v : float) :
  coords ds !! "t" = Some t -> traces ds !! "phi2" = Some phi2 ->
  length phi2 = length t -> 2 <= length t ->
  strictly_increasing t = true -> strictly_positive phi2 = true ->
  window_index t window = Return k -> (1 <= k < Z.of_nat (length t))%Z ->
  detect_saturation_time np_log ds window threshold = Return v ->
  is_nan v = false ->
  exists g i_peak i_star tp,
    growth_rate_of np_log t phi2 k = Return g /\
    first_peak g i_peak /\ Z.to_nat k <= i_peak /\
    first_below g threshold i_peak i_star /\
    t !! i_star = Some v /\ v ∈ t /\
    t !! i_peak = Some tp /\ leb tp v = true.
Proof.
  intros Ht Hphi Hlen HN Hinc _ Hk Hk1 Hret Hv.
  destruct (detect_is_search ds t phi2 window threshold k) as [Hg Hd]; [done..|lia|].
  set (g := growth_array np_log t phi2 (Z.to_nat k)) in *.
  assert (Hglen : length g = length t) by by apply growth_array_length.
  pose proof (saturation_search_spec t g threshold
                (growth_array_nonempty t phi2 _ Hlen HN) Hglen) as Hspec.
  rewrite <- Hd, Hret in Hspec.
  destruct Hspec as [[_ [=]]|(q & Hq & [(i & v' & Hi & Hti & [= <-])|[_ [= ->]]])];
    [|done].
  destruct (lookup_lt_is_Some_2 t q) as [tp Htp].
  { destruct Hq as (x & Hx & _). apply lookup_lt_Some in Hx. lia. }
  exists g, q, i, tp. split_and!; try done.
  - destruct Hq as (x & Hx & Hnx & _).
    destruct (Nat.le_gt_cases (Z.to_nat k) q) as [|Hlt]; [done|].
    rewrite (growth_array_missing_nan t phi2 _ q x Hlen Hlt Hx) in Hnx. done.
  - apply list_elem_of_lookup. by exists i.
  - apply (strictly_increasing_le t q i); try done. by destruct Hi.
Qed.

(** C2 (what the code does): when no growth rate is defined, because
    the window spans at least the whole series ([k >= N]) or because every
    finite difference is NaN, [detect_saturation_time] raises the
    [ValueError] of [np.nanargmax] instead of returning the sentinel. *)
Theorem detect_raises_without_growth_rate (ds : Dataset) (t phi2 : list float)
    (window threshold : float) (k : Z) :
  coords ds !! "t" = Some t -> traces ds !! "phi2" = Some phi2 ->
  length phi2 = length t ->
  window_index t window = Return k -> (1 <= k)%Z ->
  (forall i x, Z.to_nat k <= i < length t ->
     finite_difference np_log t phi2 (Z.to_nat k) i = Some x -> is_nan x = true) ->
  detect_saturation_time np_log ds window threshold =
  Raise (ValueError AllNanSlice).
Proof.
  intros Ht Hphi Hlen Hk Hk1 Hnan.
  destruct (detect_is_search ds t phi2 window threshold k) as [_ ->]; [done..|].
  pose proof (window_index_length _ _ _ Hk) as HN.
  unfold saturation_search. rewrite np_nanargmax_all_nan; [done| |].
  - by apply growth_array_nonempty.
  - apply Forall_lookup. intros i x Hi.
    apply lookup_lt_Some in Hi as Hi'. rewrite growth_array_length in Hi' by done.
    destruct (Nat.le_gt_cases (Z.to_nat k) i) as [Hki|Hki].
    + rewrite growth_array_lookup in Hi by (done || lia). by apply (Hnan i).
    + by apply (growth_array_missing_nan t phi2 (Z.to_nat k) i).
Qed.

(** C4: on a strictly increasing time coordinate of length [N >= 2] with
    strictly positive field values and [1 <= k < N], the growth-rate array of
    the detector holds [(ln field[i] - ln field[i-k]) / (time[i] - time[i-k])]
    at every [i] in [[k, N)] and the missing value at every [i < k]; a
    missing entry is never below the threshold, and the detector returns
    what the peak search and the threshold scan return on the entries from
    [k] on alone. *)
Theorem growth_rate_finite_difference (ds : Dataset) (t phi2 : list float)
    (window threshold : float) (k : Z) :
  coords ds !! "t" = Some t -> traces ds !! "phi2" = Some phi2 ->
  length phi2 = length t -> 2 <= length t ->
  strictly_increasing t = true -> strictly_positive phi2 = true ->
  window_index t window = Return k -> (1 <= k < Z.of_nat (length t))%Z ->
  exists g,
    growth_rate_of np_log t phi2 k = Return g /\ length g = length t /\
    (forall i fi fk ti tk, Z.to_nat k <= i < length t ->
       phi2 !! i = Some fi -> phi2 !! (i - Z.to_nat k) = Some fk ->
       t !! i = Some ti -> t !! (i - Z.to_nat k) = Some tk ->
       g !! i = Some ((np_log fi - np_log fk) / (ti - tk))%float) /\
    (forall i, i < Z.to_nat k ->
       g !! i = Some nan /\ ltb nan threshold = false) /\
    detect_saturation_time np_log ds window threshold =
    saturation_search (drop (Z.to_nat k) t) (drop (Z.to_nat k) g) threshold.
Proof.
  intros Ht Hphi Hlen HN _ _ Hk Hk1.
  destruct (detect_is_search ds t phi2 window threshold k) as [Hg Hd]; [done..|lia|].
  set (g := growth_array np_log t phi2 (Z.to_nat k)) in *.
  assert (Hglen : length g = length t) by by apply growth_array_length.
  exists g. split_and!; [done|done| | |].
  - intros i fi fk ti tk Hi Hfi Hfk Hti Htk. unfold g.
    rewrite growth_array_lookup by done. unfold finite_difference.
    by rewrite Hfi, Hfk, Hti, Htk.
  - intros i Hi. split; [|apply ltb_nan_l].
    apply growth_array_missing; lia.
  - rewrite Hd. apply saturation_search_drop; [done|lia|].
    intros j y Hj. by apply growth_array_missing_nan.
Qed.

(** C6: with [1 <= k < N] and a peak index from which on every defined
    growth rate is at least the threshold, the detector returns the NaN
    sentinel and does not raise. *)
Theorem detect_not_found_above_threshold (ds : Dataset) (t phi2 : list float)
    (window threshold : float) (k : Z) (g : list float) (i_peak : nat) :
  coords ds !! "t" = Some t -> traces ds !! "phi2" = Some phi2 ->
  length phi2 = length t ->
  window_index t window = Return k -> (1 <= k < Z.of_nat (length t))%Z ->
  growth_rate_of np_log t phi2 k = Return g ->
  first_peak g i_peak ->
  (forall i y, i_peak <= i -> g !! i = Some y -> is_nan y = false ->
               leb threshold y = true) ->
  detect_saturation_time np_log ds window threshold = Return nan.
Proof.
  intros Ht Hphi Hlen Hk Hk1 Hg Hpeak Habove.
  destruct (detect_is_search ds t phi2 window threshold k) as [Hg' Hd]; [done..|lia|].
  rewrite Hg in Hg'. injection Hg' as ->.
  pose proof (window_index_length _ _ _ Hk) as HN.
  rewrite Hd.
  apply (search_spec_functional t (growth_array np_log t phi2 (Z.to_nat k)) threshold).
  - apply saturation_search_spec; [by apply growth_array_nonempty|].
    by apply growth_array_length.
  - right. exists i_peak. split; [done|]. right. split; [|done].
    intros j y Hj Hjy. destruct (ltb y threshold) eqn:E; [|done].
    destruct (ltb_defined _ _ E) as [Hy Hth].
    pose proof (Habove j y Hj Hjy Hy) as Hle.
    rewrite leb_negb_ltb in Hle by done. by rewrite E in Hle.
Qed.

(** C10: on a strictly increasing time coordinate of length [N >= 2], a
    strictly positive window smaller than the first sampling interval is
    converted to the index [k = 0], and [detect_saturation_time] raises the
    shape-mismatch [ValueError] of the finite difference. *)
Theorem detect_raises_on_zero_index (ds : Dataset) (t phi2 : list float)
    (window threshold : float) (t0 t1 : float) :
  coords ds !! "t" = Some t -> traces ds !! "phi2" = Some phi2 ->
  2 <= length t -> strictly_increasing t = true ->
  t !! 0 = Some t0 -> t !! 1 = Some t1 ->
  ltb 0 window = true -> ltb window (t1 - t0) = true ->
  window_index t window = Return 0%Z /\
  detect_saturation_time np_log ds window threshold =
  Raise (ValueError Broadcast).
Proof.
  intros Ht Hphi HN _ H0 H1 Hpos Hsmall.
  assert (Hk : window_index t window = Return 0%Z).
  { unfold window_index, getitem. rewrite H1, H0. cbn [bind].
    by apply F64Division.py_int_div_lt. }
  split; [done|].
  rewrite (detect_unfold ds t phi2 window threshold 0) by done.
  unfold growth_rate_of, np_sub, slice_from, slice_to.
  change (- 0)%Z with 0%Z.
  replace (slice_bound (length (map np_log phi2)) 0) with 0
    by (unfold slice_bound; cbn; lia).
  replace (slice_bound (length t) 0) with 0 by (unfold slice_bound; cbn; lia).
  rewrite !drop_0, !take_0.
  destruct t as [|a [|b t]]; [cbn in HN; lia..|].
  destruct (map np_log phi2) as [|x [|y L]]; reflexivity.
Qed.

End DetectorFacts.

Section MissingValues.

Variable np_log : float -> float.




End MissingValues.

(** ** No validation at the boundary *)

Lemma saturation_search_raise_threshold (t g : list float) (th th' : float)
    (e : exn) :
  saturation_search t g th = Raise e -> saturation_search t g th' = Raise e.
Proof.
  unfold saturation_search. destruct (np_nanargmax g) as [p|e']; [|done].
  cbn [bind]. unfold getitem_mask. rewrite !length_map.
  destruct (decide _); [|done]. cbn [bind].
  by destruct (compress _ _).
Qed.

Lemma detect_raise_threshold (np_log : float -> float) (ds : Dataset)
    (window th th' : float) (e : exn) :
  detect_saturation_time np_log ds window th = Raise e ->
  detect_saturation_time np_log ds window th' = Raise e.
Proof.
  unfold detect_saturation_time.
  destruct (getvar (coords ds) "t") as [t|]; [|done]. cbn [bind].
  destruct (getvar (traces ds) "phi2") as [phi2|]; [|done]. cbn [bind].
  destruct (window_index t window) as [k|]; [|done]. cbn [bind].
  destruct (growth_rate_of np_log t phi2 k) as [g|]; [|done]. cbn [bind].
  apply saturation_search_raise_threshold.
Qed.

(** ** The end-to-end scenario *)

Section Scenario.

Variables np_log np_exp : float -> float.

Hypothesis log_finite : finite (np_log (np_exp 12.5)) = true.
Hypothesis growth_ok : scenario_growth_ok np_log np_exp = true.

Lemma scenario_tail (i : nat) :
  30 <= i < 50 ->
  finite_difference np_log scenario_time (scenario_field np_exp) 5 i = Some 0%float.
Proof using log_finite.
  intros Hi.
  do 50 (destruct i as [|i];
         [try lia; cbv; rewrite (sub_diag _ log_finite); reflexivity|]).
  lia.
Qed.

Lemma scenario_linear (i : nat) (x : float) :
  5 <= i < 25 ->
  finite_difference np_log scenario_time (scenario_field np_exp) 5 i = Some x ->
  ltb x scenario_threshold = false.
Proof using growth_ok.
  intros Hi Hx. unfold scenario_growth_ok in growth_ok.
  rewrite forallb_forall in growth_ok.
  specialize (growth_ok i ltac:(apply in_seq; lia)).
  rewrite Hx in growth_ok. by apply negb_true_iff in growth_ok.
Qed.

(** C7: on [time = [0, 1, ..., 49]], [field[i] = exp(0.5 i)] for
    [i <= 25] and [field[25]] afterwards, [window = 5], [threshold = 0.1],
    the detector returns a saturation time, and it lies in [[25, 30]];
    this holds for every [log] and [exp] that give a finite logarithm of
    [field[25]] and growth rates of the linear phase that are not below the
    threshold. *)
Theorem scenario_saturation_time :
  exists v,
    detect_saturation_time np_log
      (mk_dataset scenario_time (scenario_field np_exp)) 5 scenario_threshold
    = Return v /\
    leb 25 v = true /\ leb v 30 = true.
Proof using log_finite growth_ok.
  set (t := scenario_time). set (f := scenario_field np_exp).
  set (th := scenario_threshold).
  assert (Hlen : length f = length t) by reflexivity.
  assert (HN : length t = 50) by reflexivity.
  destruct (detect_is_search np_log (mk_dataset t f) t f 5 th 5%Z)
    as [_ Hd]; [done|done|done|by vm_compute|lia|].
  change (Z.to_nat 5) with 5 in Hd.
  set (g := growth_array np_log t f 5) in *.
  assert (Hglen : length g = length t) by by apply growth_array_length.
  assert (Htail : forall i, 30 <= i < 50 -> g !! i = Some 0%float).
  { intros i Hi. unfold g. rewrite growth_array_lookup by (done || lia).
    by apply scenario_tail. }
  assert (Hzero : ltb 0 th = true) by by vm_compute.
  pose proof (saturation_search_spec t g th
                (growth_array_nonempty np_log t f 5 Hlen ltac:(lia)) Hglen) as Hspec.
  rewrite <- Hd in Hspec.
  destruct Hspec as [[Hall _]|(q & Hq & Hr)].
  { rewrite Forall_lookup in Hall. by pose proof (Hall 30 _ (Htail 30 ltac:(lia))). }
  assert (Hq30 : q <= 30).
  { destruct (Nat.le_gt_cases q 30) as [|Hlt]; [done|]. exfalso.
    destruct Hq as (x & Hx & _ & _ & Hfirst).
    apply lookup_lt_Some in Hx as Hq50.
    rewrite Htail in Hx by lia. injection Hx as <-.
    by pose proof (Hfirst 30 _ Hlt (Htail 30 ltac:(lia)) eq_refl). }
  destruct Hr as [(i & v & (Hqi & (x & Hx & Hlt) & Hfirst) & Hti & ->)|[Hnone _]].
  2: { rewrite (Hnone 30 _ Hq30 (Htail 30 ltac:(lia))) in Hzero. done. }
  exists v. split; [done|].
  assert (Hi30 : i <= 30).
  { destruct (Nat.le_gt_cases i 30) as [|Hgt]; [done|].
    rewrite (Hfirst 30 _ ltac:(lia) (Htail 30 ltac:(lia))) in Hzero. done. }
  assert (Hi25 : 25 <= i).
  { destruct (Nat.le_gt_cases 25 i) as [|Hlt25]; [done|]. exfalso.
    destruct (Nat.le_gt_cases 5 i) as [Hi5|Hi5].
    - unfold g in Hx. rewrite growth_array_lookup in Hx by (done || lia).
      pose proof (scenario_linear i x ltac:(lia) Hx) as Hc.
      unfold th in Hlt. congruence.
    - unfold g in Hx. rewrite growth_array_missing in Hx by lia.
      injection Hx as <-. by rewrite ltb_nan_l in Hlt. }
  do 25 (destruct i as [|i]; [lia|]).
  do 6 (destruct i as [|i]; [injection Hti as <-; by vm_compute|]).
  lia.
Qed.

End Scenario.

(** ** Selection of a closed time interval *)

Lemma increasing_tail_above (y : float) (t : list float) (z : float) :
  strictly_increasing (y :: t) = true -> z ∈ t -> ltb y z = true.
Proof.
  intros Ht Hz. apply list_elem_of_lookup in Hz as [i Hi].
  by apply (strictly_increasing_lookup (y :: t) 0 (S i)); [|lia| |].
Qed.

Lemma increasing_tail (y : float) (t : list float) :
  strictly_increasing (y :: t) = true -> strictly_increasing t = true.
Proof.
  destruct t as [|z t]; [done|]. cbn [strictly_increasing].
  intros H. by apply andb_true_iff in H as [_ H].
Qed.

Lemma samples_all_above {A : Type} (t : list float) (a : list A) (lo hi : float) :
  (forall y, y ∈ t -> ltb hi y = true) -> samples_in_interval t a lo hi = [].
Proof.
  revert a. induction t as [|y t IH]; intros a Hall; [by destruct a|].
  destruct a as [|r a]; [done|]. cbn [samples_in_interval].
  pose proof (Hall y ltac:(left)) as Hy.
  destruct (ltb_defined _ _ Hy) as [Hhi Hny].
  rewrite (leb_negb_ltb y hi), Hy, andb_false_r by done.
  apply IH. intros z Hz. apply Hall. by right.
Qed.

(** On an increasing index the label-based slice selects exactly the
    samples of the closed interval. *)
Lemma sel_t_slice_closed {A : Type} (t : list float) (a : list A) (lo hi : float) :
  strictly_increasing t = true ->
  (forall y, y ∈ t -> is_nan y = false) ->
  is_nan lo = false -> is_nan hi = false ->
  length a = length t ->
  sel_t_slice t a lo hi = samples_in_interval t a lo hi.
Proof.
  intros Ht Hdef Hlo Hhi. revert a Ht Hdef.
  induction t as [|y t IH]; intros a Ht Hdef Hlen.
  { destruct a; [done|]. unfold sel_t_slice. by rewrite take_0. }
  destruct a as [|r a]; [done|]. injection Hlen as Hlen.
  pose proof (Hdef y ltac:(left)) as Hy.
  assert (Hdef' : forall z, z ∈ t -> is_nan z = false)
    by (intros z Hz; apply Hdef; by right).
  pose proof (increasing_tail _ _ Ht) as Ht'.
  specialize (IH a Ht' Hdef' Hlen).
  unfold sel_t_slice in *. cbn [searchsorted_left searchsorted_right samples_in_interval].
  rewrite (leb_negb_ltb lo y) by done.
  destruct (ltb y lo) eqn:Elo, (leb y hi) eqn:Ehi; cbn [negb andb].
  - by rewrite <- IH.
  - rewrite take_0. symmetry. apply samples_all_above.
    intros z Hz. apply (ltb_trans _ y); [|by apply (increasing_tail_above y t)].
    rewrite leb_negb_ltb in Ehi by done. by apply negb_false_iff in Ehi.
  - rewrite <- IH. cbn.
    assert (searchsorted_left t lo = 0) as ->; [|by rewrite Nat.sub_0_r].
    destruct t as [|z t]; [done|]. cbn.
    destruct (ltb z lo) eqn:Ez; [|done].
    pose proof (increasing_tail_above y (z :: t) z Ht ltac:(left)) as Hyz.
    by rewrite (ltb_trans _ _ _ Hyz Ez) in Elo.
  - symmetry. apply samples_all_above.
    intros z Hz. apply (ltb_trans _ y); [|by apply (increasing_tail_above y t)].
    rewrite leb_negb_ltb in Ehi by done. by apply negb_false_iff in Ehi.
Qed.

Lemma increasing_le_last (t : list float) (tlast y : float) :
  strictly_increasing t = true -> last t = Some tlast ->
  is_nan tlast = false -> y ∈ t -> leb y tlast = true.
Proof.
  intros Ht Hlast Hdef Hy. rewrite last_lookup in Hlast.
  apply list_elem_of_lookup in Hy as [i Hi].
  apply lookup_lt_Some in Hi as Hlt.
  destruct (decide (i = Nat.pred (length t))) as [->|Hne].
  - assert (y = tlast) as -> by congruence. by apply leb_refl.
  - apply ltb_leb.
    apply (strictly_increasing_lookup t i (Nat.pred (length t))); [done|lia|done|done].
Qed.

(** ** The renderers *)


Lemma has_false {V : Type} (m : gmap string V) (name : string) :
  m !! name = None -> has m name = false.
Proof.
  intros H. unfold has. apply bool_decide_eq_false. rewrite H. by intros [v Hv].
Qed.


Lemma filter_has_none {V : Type} (m : gmap string V) (names : list string) :
  (forall n, n ∈ names -> m !! n = None) -> List.filter (has m) names = [].
Proof.
  induction names as [|n names IH]; intros Hnone; [done|].
  cbn [List.filter]. rewrite has_false by (apply Hnone; left).
  apply IH. intros n' Hn'. apply Hnone. by right.
Qed.

(** With no spectrum in the dataset, [plot_fields_by_mode] hides its three
    subplots, saves the figure and returns its path. *)
Lemma plot_fields_by_mode_without_fields (ds : Dataset) (output_dir : string)
    (filename : option string) (w : fs) (kx ky : list float) :
  (forall n, n ∈ ["phi2_by_mode"; "apar2_by_mode"; "bpar2_by_mode"] ->
             spectra ds !! n = None) ->
  coords ds !! "kx" = Some kx -> coords ds !! "ky" = Some ky ->
  plot_fields_by_mode ds output_dir filename w =
  let path := path_join output_dir (default "fields_by_mode.png" filename) in
  (savefig path (replicate 3 (set_visible false new_axes)) (mkdir output_dir w),
   Return path).
Proof.
  intros Hnone Hkx Hky. unfold plot_fields_by_mode.
  rewrite (filter_has_none _ _ Hnone).
  unfold io_bind, io_do, io_lift, io_ret.
  by rewrite (getvar_Some _ _ _ Hkx), (getvar_Some _ _ _ Hky).
Qed.

(** With no transfer diagnostic in the dataset, [plot_transfer_by_theta]
    draws the empty axes, saves the figure and returns its path. *)
Lemma plot_transfer_by_theta_without_diags (ds : Dataset) (output_dir : string)
    (filename : option string) (w : fs) (theta : list float) :
  (forall n, n ∈ all_diags -> transfers ds !! n = None) ->
  coords ds !! "theta" = Some theta ->
  plot_transfer_by_theta ds output_dir filename w =
  let path := path_join output_dir (default "transfer_by_theta.png" filename) in
  (savefig path
     [set_grid (set_legend (set_ylabel "transfer" (set_xlabel "$\theta$" new_axes)))]
     (mkdir output_dir w),
   Return path).
Proof.
  intros Hnone Htheta. unfold plot_transfer_by_theta.
  rewrite (filter_has_none _ _ Hnone).
  unfold io_bind, io_do, io_lift, io_ret.
  by rewrite (getvar_Some _ _ _ Htheta).
Qed.

(** C8 (what the code does): when [phi2] is absent, and so in particular
    when [phi2], [apar2] and [bpar2] are all absent,
    [plot_fields_time_traces] raises the [KeyError] of
    [detect_saturation_time] before it creates the directory or draws
    anything. *)
Theorem plot_fields_time_traces_needs_phi2 (np_log : float -> float)
    (ds : Dataset) (output_dir : string) (filename : option string)
    (window threshold : float) (w : fs) (t : list float) :
  coords ds !! "t" = Some t -> traces ds !! "phi2" = None ->
  plot_fields_time_traces np_log ds output_dir filename window threshold w =
  (w, Raise (KeyError "phi2")).
Proof.
  intros Ht Hphi. unfold plot_fields_time_traces, detect_saturation_time.
  rewrite (getvar_Some _ _ _ Ht). unfold getvar at 1. rewrite Hphi.
  reflexivity.
Qed.

(** ** The averaging window *)

Lemma samples_in_interval_snoc {A : Type} (t : list float) (a : list A)
    (y : float) (r : A) (lo hi : float) :
  length a = length t ->
  samples_in_interval (t ++ [y]) (a ++ [r]) lo hi =
  samples_in_interval t a lo hi ++ (if leb lo y && leb y hi then [r] else []).
Proof.
  revert a. induction t as [|z t IH]; intros [|q a] Hlen; try done.
  injection Hlen as Hlen. cbn [app samples_in_interval].
  rewrite (IH a Hlen). by destruct (leb lo z), (leb z hi).
Qed.

Section AveragedFacts.

Variable mean_dim_t : list (list float) -> list float.

(** On an increasing time coordinate, one pass of the loop averages the
    samples of the closed interval [[tstart, tend]]. *)
Lemma transfer_avg_of_closed (ds : Dataset) (tstart tend : float)
    (t : list float) (diag : string) (da : list (list float)) :
  coords ds !! "t" = Some t -> transfers ds !! diag = Some da ->
  strictly_increasing t = true -> (forall y, y ∈ t -> is_nan y = false) ->
  length da = length t ->
  is_nan tstart = false -> is_nan tend = false ->
  transfer_avg_of mean_dim_t ds tstart tend diag =
  Return (mean_dim_t (samples_in_interval t da tstart tend)).
Proof.
  intros Ht Hda Hinc Hdef Hlen Hs He. unfold transfer_avg_of.
  rewrite (getvar_Some _ _ _ Hda), (getvar_Some _ _ _ Ht). cbn [bind].
  by rewrite sel_t_slice_closed.
Qed.

(** C9 (what the code does): with [tstart = None] on an increasing time
    coordinate the interval is [[tstart, tstart + window]] with
    [tstart = t[-1] - window], both computed in binary64, and a diagnostic
    is averaged over the samples of that interval.  Whenever
    [tstart + window] rounds below [t[-1]], the last sample is left out of
    the average, although it lies in [[t[-1] - window, t[-1]]]. *)
Theorem averaged_window_drops_last_sample (ds : Dataset) (window : float)
    (t : list float) (tlast : float) (diag : string)
    (da : list (list float)) (dlast : list float) :
  coords ds !! "t" = Some t -> transfers ds !! diag = Some da ->
  strictly_increasing t = true -> length da = length t ->
  last t = Some tlast -> last da = Some dlast ->
  leb (tlast - window) tlast = true ->
  ltb ((tlast - window) + window) tlast = true ->
  averaging_interval ds window None =
    Return ((tlast - window)%float, ((tlast - window) + window)%float) /\
  transfer_avg_of mean_dim_t ds (tlast - window) ((tlast - window) + window) diag =
    Return (mean_dim_t (samples_in_interval t da (tlast - window)
                          ((tlast - window) + window))) /\
  exists t' da',
    t = t' ++ [tlast] /\ da = da' ++ [dlast] /\
    samples_in_interval t da (tlast - window) ((tlast - window) + window) =
      samples_in_interval t' da' (tlast - window) ((tlast - window) + window) /\
    samples_in_interval t da (tlast - window) tlast =
      samples_in_interval t' da' (tlast - window) tlast ++ [dlast].
Proof.
  intros Ht Hda Hinc Hlen Hlast Hdlast Hstart Hend.
  set (tstart := (tlast - window)%float) in *.
  set (tend := (tstart + window)%float) in *.
  destruct (ltb_defined _ _ Hend) as [Hde Hdl].
  assert (Hds : is_nan tstart = false) by (apply leb_iff in Hstart; tauto).
  assert (Hdef : forall y, y ∈ t -> is_nan y = false).
  { intros y Hy. pose proof (increasing_le_last t tlast y Hinc Hlast Hdl Hy) as Hle.
    apply leb_iff in Hle. tauto. }
  split_and!.
  - unfold averaging_interval. rewrite (getvar_Some _ _ _ Ht). cbn [bind].
    unfold isel_last. by rewrite Hlast.
  - by apply (transfer_avg_of_closed ds tstart tend t).
  - apply last_Some in Hlast as [t' ->]. apply last_Some in Hdlast as [da' ->].
    assert (Hlen' : length da' = length t').
    { rewrite !length_app in Hlen. cbn in Hlen. lia. }
    exists t', da'. split_and!; [done|done| |].
    + rewrite samples_in_interval_snoc by done.
      rewrite (leb_negb_ltb tlast tend), Hend by done.
      cbn [negb]. by rewrite andb_false_r, app_nil_r.
    + rewrite samples_in_interval_snoc by done.
      by rewrite Hstart, leb_refl.
Qed.

End AveragedFacts.

(** ** Concrete runs *)

Ltac run := first [ vm_compute; reflexivity | cbn; lia ].


Lemma detect_returns_first_crossing_witness :
  exists g i_peak i_star tp,
    growth_rate_of Libm.log_ref ex_time ex_field 1 = Return g /\
    first_peak g i_peak /\ Z.to_nat 1 <= i_peak /\
    first_below g scenario_threshold i_peak i_star /\
    ex_time !! i_star = Some 4%float /\ 4%float ∈ ex_time /\
    ex_time !! i_peak = Some tp /\ leb tp 4 = true.
Proof.
  apply (detect_returns_first_crossing Libm.log_ref
           (mk_dataset ex_time ex_field) ex_time ex_field
           1 scenario_threshold 1 4);
    run.
Defined.

Lemma detect_raises_without_growth_rate_witness :
  detect_saturation_time Libm.log_ref (mk_dataset ex_time ex_field)
    7 scenario_threshold = Raise (ValueError AllNanSlice).
Proof.
  apply (detect_raises_without_growth_rate Libm.log_ref
           (mk_dataset ex_time ex_field) ex_time ex_field
           7 scenario_threshold 7);
    run.
Defined.

Lemma growth_rate_finite_difference_witness :
  exists g,
    growth_rate_of Libm.log_ref ex_time ex_field 1 = Return g /\
    length g = length ex_time /\
    (forall i fi fk ti tk, Z.to_nat 1 <= i < length ex_time ->
       ex_field !! i = Some fi -> ex_field !! (i - Z.to_nat 1) = Some fk ->
       ex_time !! i = Some ti -> ex_time !! (i - Z.to_nat 1) = Some tk ->
       g !! i = Some ((Libm.log_ref fi - Libm.log_ref fk) / (ti - tk))%float) /\
    (forall i, i < Z.to_nat 1 ->
       g !! i = Some nan /\ ltb nan scenario_threshold = false) /\
    detect_saturation_time Libm.log_ref (mk_dataset ex_time ex_field)
      1 scenario_threshold =
    saturation_search (drop (Z.to_nat 1) ex_time) (drop (Z.to_nat 1) g)
      scenario_threshold.
Proof.
  apply (growth_rate_finite_difference Libm.log_ref
           (mk_dataset ex_time ex_field) ex_time ex_field
           1 scenario_threshold 1);
    run.
Defined.

Lemma ex_growing_peak : first_peak ex_growing_rate 1.
Proof.
  eexists. split_and!; [reflexivity|reflexivity| |].
  - intros j y Hj Hy.
    do 4 (destruct j as [|j]; [injection Hj as <-; by vm_compute in Hy |- *|]).
    done.
  - intros j y Hlt Hj Hy.
    destruct j as [|j]; [injection Hj as <-; by vm_compute in Hy|lia].
Defined.

Lemma detect_not_found_above_threshold_witness :
  detect_saturation_time Libm.log_ref (mk_dataset ex_time4 ex_growing)
    1 scenario_threshold = Return nan.
Proof.
  apply (detect_not_found_above_threshold Libm.log_ref
           (mk_dataset ex_time4 ex_growing) ex_time4 ex_growing
           1 scenario_threshold 1 ex_growing_rate 1);
    try run; [exact ex_growing_peak|].
  intros i y Hi Hy Hdef.
  do 4 (destruct i as [|i]; [injection Hy as <-; by vm_compute in Hdef |- *|]).
  done.
Defined.

Lemma detect_raises_on_zero_index_witness :
  window_index ex_time 0.5 = Return 0%Z /\
  detect_saturation_time Libm.log_ref (mk_dataset ex_time ex_field)
    0.5 scenario_threshold = Raise (ValueError Broadcast).
Proof.
  apply (detect_raises_on_zero_index Libm.log_ref
           (mk_dataset ex_time ex_field) ex_time ex_field
           0.5 scenario_threshold 0 1);
    run.
Defined.


Lemma scenario_saturation_time_witness :
  exists v,
    detect_saturation_time Libm.log_ref
      (mk_dataset scenario_time (scenario_field Libm.exp_ref)) 5 scenario_threshold
    = Return v /\
    leb 25 v = true /\ leb v 30 = true.
Proof.
  apply (scenario_saturation_time Libm.log_ref Libm.exp_ref);
    run.
Defined.

Lemma plot_fields_time_traces_needs_phi2_witness :
  plot_fields_time_traces Libm.log_ref ds_coords_only "outputs" None
    20 scenario_threshold empty_fs =
  (empty_fs, Raise (KeyError "phi2")).
Proof.
  apply (plot_fields_time_traces_needs_phi2 Libm.log_ref ds_coords_only
           "outputs" None 20 scenario_threshold empty_fs [0; 1; 2]%float);
    run.
Defined.

Lemma averaged_window_drops_last_sample_witness :
  averaging_interval (ds_transfer ex_time_3_6) 10 None =
    Return ((0x1.ccccccccccccdp+1 - 10)%float,
            ((0x1.ccccccccccccdp+1 - 10) + 10)%float) /\
  transfer_avg_of ex_rows_seen (ds_transfer ex_time_3_6)
    (0x1.ccccccccccccdp+1 - 10) ((0x1.ccccccccccccdp+1 - 10) + 10)
    "kinetic_energy_transfer_theta" =
    Return (ex_rows_seen
              (samples_in_interval ex_time_3_6 [[1]; [2]; [3]; [4]]%float
                 (0x1.ccccccccccccdp+1 - 10) ((0x1.ccccccccccccdp+1 - 10) + 10))) /\
  exists t' da',
    ex_time_3_6 = t' ++ [0x1.ccccccccccccdp+1%float] /\
    [[1]; [2]; [3]; [4]]%float = da' ++ [[4%float]] /\
    samples_in_interval ex_time_3_6 [[1]; [2]; [3]; [4]]%float
      (0x1.ccccccccccccdp+1 - 10) ((0x1.ccccccccccccdp+1 - 10) + 10) =
      samples_in_interval t' da'
        (0x1.ccccccccccccdp+1 - 10) ((0x1.ccccccccccccdp+1 - 10) + 10) /\
    samples_in_interval ex_time_3_6 [[1]; [2]; [3]; [4]]%float
      (0x1.ccccccccccccdp+1 - 10) 0x1.ccccccccccccdp+1 =
      samples_in_interval t' da'
        (0x1.ccccccccccccdp+1 - 10) 0x1.ccccccccccccdp+1 ++ [[4%float]].
Proof.
  apply (averaged_window_drops_last_sample ex_rows_seen
           (ds_transfer ex_time_3_6) 10 ex_time_3_6 0x1.ccccccccccccdp+1
           "kinetic_energy_transfer_theta" [[1]; [2]; [3]; [4]]%float [4%float]);
    run.
Defined.

(** ** Where the specification and the code part *)

(** C3, counterexample: a call with a negative threshold is not rejected;
    it runs the search and returns the sentinel. *)
Lemma nonpositive_threshold_is_accepted :
  leb (-1) 0 = true /\
  detect_saturation_time Libm.log_ref (mk_dataset ex_time ex_field) 1 (-1)
  = Return nan /\
  ~ raises (detect_saturation_time Libm.log_ref (mk_dataset ex_time ex_field)
              1 (-1)).
Proof.
  split_and!; [by vm_compute|by vm_compute|].
  replace (detect_saturation_time Libm.log_ref (mk_dataset ex_time ex_field)
             1 (-1)) with (Return nan : result float) by by vm_compute.
  intros [].
Qed.

(** C3 (as the code has it): the detector validates nothing at its
    boundary.  Whether it raises, and what, does not depend on the
    threshold; a negative window and arrays of unequal length are not
    rejected as such, and a call with either can return normally. *)
Theorem detect_validates_nothing :
  (forall np_log ds window th th' e,
     detect_saturation_time np_log ds window th = Raise e <->
     detect_saturation_time np_log ds window th' = Raise e) /\
  (leb (-1) 0 = true /\
   detect_saturation_time Libm.log_ref (mk_dataset ex_time ex_field)
     (-1) scenario_threshold = Return nan) /\
  (length ex_field_short <> length ex_time /\
   detect_saturation_time Libm.log_ref (mk_dataset ex_time ex_field_short)
     4 scenario_threshold = Return nan).
Proof.
  split_and!.
  - intros np_log ds window th th' e. split; apply detect_raise_threshold.
  - by vm_compute.
  - by vm_compute.
  - cbn. lia.
  - by vm_compute.
Qed.


(** The run behind C9: with [t] ending at 3.6 and [window = 10],
    [(3.6 - 10) + 10] rounds below 3.6; the rows handed to the mean are those
    of the first three samples, where the closed interval
    [[3.6 - 10, 3.6]] holds all four. *)
Lemma averaged_window_run_3_6 :
  last ex_time_3_6 = Some 0x1.ccccccccccccdp+1%float /\
  ltb ((0x1.ccccccccccccdp+1 - 10) + 10) 0x1.ccccccccccccdp+1 = true /\
  (forall mean_dim_t,
     transfer_avg_of mean_dim_t (ds_transfer ex_time_3_6)
       (0x1.ccccccccccccdp+1 - 10) ((0x1.ccccccccccccdp+1 - 10) + 10)
       "kinetic_energy_transfer_theta"
     = Return (mean_dim_t [[1]; [2]; [3]]%float)) /\
  samples_in_interval ex_time_3_6 [[1]; [2]; [3]; [4]]%float
    (0x1.ccccccccccccdp+1 - 10) 0x1.ccccccccccccdp+1
  = [[1]; [2]; [3]; [4]]%float.
Proof. split_and!; by vm_compute. Qed.

(** ** Further properties of the detector *)

Lemma slice_bound_le (n : nat) (i : Z) : slice_bound n i <= n.
Proof. unfold slice_bound. lia. Qed.

Lemma broadcast2_raise (f : float -> float -> float) (a b : list float) (e : exn) :
  broadcast2 f a b = Raise e -> e = ValueError Broadcast.
Proof.
  unfold broadcast2. destruct (decide _); [done|].
  destruct a as [|x [|x' a]], b as [|y [|y' b]]; try done; by intros [= <-].
Qed.

Lemma setitem_slice_from_length (a : list float) (i : Z) (rhs g : list float) :
  setitem_slice_from a i rhs = Return g -> length g = length a.
Proof.
  unfold setitem_slice_from. pose proof (slice_bound_le (length a) i) as Hs.
  destruct (decide _) as [Hlen|Hlen].
  - intros [= <-]. rewrite length_app, length_take. lia.
  - destruct rhs as [|v [|v' rhs]]; try done. intros [= <-].
    rewrite length_app, length_take, length_replicate. lia.
Qed.

Lemma setitem_slice_from_raise (a : list float) (i : Z) (rhs : list float) (e : exn) :
  setitem_slice_from a i rhs = Raise e -> e = ValueError Broadcast.
Proof.
  unfold setitem_slice_from. destruct (decide _); [done|].
  destruct rhs as [|v [|v' rhs]]; try done; by intros [= <-].
Qed.

Lemma window_index_raise (t : list float) (window : float) (e : exn) :
  window_index t window = Raise e ->
  (e = IndexError /\ length t < 2) \/
  (2 <= length t /\ (e = OverflowError \/ e = ValueError NanToInt)).
Proof.
  unfold window_index, getitem. destruct t as [|a [|b t]]; cbn.
  - intros [= <-]. left. split; [done|lia].
  - intros [= <-]. left. split; [done|lia].
  - unfold py_int. intros H. right. split; [lia|].
    destruct (Prim2SF _) as [| | |[] m e']; try done; injection H as <-; auto.
Qed.

Section DetectorEdges.

Variable np_log : float -> float.

(** Whatever the index and the lengths, a growth-rate array that is built has
    the length of the time coordinate. *)
Lemma growth_rate_of_length (t phi2 : list float) (idx : Z) (g : list float) :
  growth_rate_of np_log t phi2 idx = Return g -> length g = length t.
Proof.
  unfold growth_rate_of.
  destruct (np_sub (slice_from (map np_log phi2) idx) _) as [num|]; [|done].
  cbn [bind].
  destruct (np_sub (slice_from t idx) _) as [den|]; [|done]. cbn [bind].
  destruct (np_div num den) as [rhs|]; [|done]. cbn [bind].
  intros H%setitem_slice_from_length. rewrite H. unfold np_full.
  by rewrite length_replicate.
Qed.

Lemma growth_rate_of_raise (t phi2 : list float) (idx : Z) (e : exn) :
  growth_rate_of np_log t phi2 idx = Raise e -> e = ValueError Broadcast.
Proof.
  unfold growth_rate_of, np_sub, np_div.
  destruct (broadcast2 _ (slice_from (map np_log phi2) idx) _) as [num|e1] eqn:E1;
    cbn [bind]; [|intros [= <-]; by apply broadcast2_raise in E1].
  destruct (broadcast2 _ (slice_from t idx) _) as [den|e2] eqn:E2;
    cbn [bind]; [|intros [= <-]; by apply broadcast2_raise in E2].
  destruct (broadcast2 _ num den) as [rhs|e3] eqn:E3;
    cbn [bind]; [|intros [= <-]; by apply broadcast2_raise in E3].
  apply setitem_slice_from_raise.
Qed.

(** A call that gets as far as the search. *)
Lemma detect_search_inv (ds : Dataset) (window threshold : float)
    (r : result float) :
  detect_saturation_time np_log ds window threshold = r ->
  (exists t phi2 k g,
     coords ds !! "t" = Some t /\ traces ds !! "phi2" = Some phi2 /\
     window_index t window = Return k /\
     growth_rate_of np_log t phi2 k = Return g /\
     length g = length t /\ 2 <= length t /\
     saturation_search t g threshold = r) \/
  (exists e, r = Raise e /\
     ((e = KeyError "t" /\ coords ds !! "t" = None) \/
      (e = KeyError "phi2" /\ traces ds !! "phi2" = None /\
       is_Some (coords ds !! "t")) \/
      (e = IndexError /\ exists t, coords ds !! "t" = Some t /\ length t < 2) \/
      e = OverflowError \/ e = ValueError NanToInt \/
      e = ValueError Broadcast)).
Proof.
  unfold detect_saturation_time, getvar.
  destruct (coords ds !! "t") as [t|] eqn:Et; cbn [bind];
    [|intros <-; right; eexists; split; [done|]; auto].
  destruct (traces ds !! "phi2") as [phi2|] eqn:Ep; cbn [bind];
    [|intros <-; right; eexists; split; [done|]; right; left; eauto].
  destruct (window_index t window) as [k|e] eqn:Ek; cbn [bind].
  - destruct (growth_rate_of np_log t phi2 k) as [g|e] eqn:Eg; cbn [bind].
    + intros <-. left. exists t, phi2, k, g. split_and!; try done.
      * by apply growth_rate_of_length in Eg.
      * by apply window_index_length in Ek.
    + intros <-. right. eexists. split; [done|].
      apply growth_rate_of_raise in Eg as ->. auto 10.
  - intros <-. right. eexists. split; [done|].
    apply window_index_raise in Ek as [[-> Hlt]|[_ [->| ->]]]; [|auto 10..].
    right. right. left. eauto.
Qed.

(** On arrays of equal length with at least one sample the search raises
    nothing but the all-NaN error of [np.nanargmax]. *)
Lemma saturation_search_raise (t g : list float) (threshold : float) (e : exn) :
  length g = length t -> g <> [] ->
  saturation_search t g threshold = Raise e -> e = ValueError AllNanSlice.
Proof.
  intros Hlen Hne Hr.
  pose proof (saturation_search_spec t g threshold Hne Hlen) as Hspec.
  rewrite Hr in Hspec.
  destruct Hspec as [[_ [= ->]]|(q & _ & [(i & v & _ & _ & [=])|[_ [=]]])].
  done.
Qed.

(** X1: every exception of [detect_saturation_time] is one of: [KeyError] for
    a missing [t] or [phi2], [IndexError] for fewer than two time samples,
    [OverflowError] or [ValueError] from [int()], the broadcasting
    [ValueError] of the finite difference, or the all-NaN [ValueError] of
    [np.nanargmax]; the boolean mask never has the wrong length and
    [np.argmax] never sees an empty array. *)
Theorem detect_exceptions (ds : Dataset) (window threshold : float) (e : exn) :
  detect_saturation_time np_log ds window threshold = Raise e ->
  (e = KeyError "t" /\ coords ds !! "t" = None) \/
  (e = KeyError "phi2" /\ traces ds !! "phi2" = None) \/
  (e = IndexError /\ exists t, coords ds !! "t" = Some t /\ length t < 2) \/
  e = OverflowError \/ e = ValueError NanToInt \/
  e = ValueError Broadcast \/ e = ValueError AllNanSlice.
Proof.
  intros H. apply detect_search_inv in H
    as [(t & phi2 & k & g & _ & _ & _ & _ & Hlen & HN & Hs)
       |(e' & [= <-] & [?|[(? & ? & _)|[?|[?|[?|?]]]]])]; auto 10.
  apply saturation_search_raise in Hs as ->; auto 10.
  intros ->. cbn in Hlen. lia.
Qed.

(** X2: a time coordinate with fewer than two samples makes the detector
    raise [IndexError] at [t[1]], whatever the window and the field. *)
Theorem detect_short_series (ds : Dataset) (t phi2 : list float)
    (window threshold : float) :
  coords ds !! "t" = Some t -> traces ds !! "phi2" = Some phi2 ->
  length t < 2 ->
  detect_saturation_time np_log ds window threshold = Raise IndexError.
Proof.
  intros Ht Hphi Hlen. unfold detect_saturation_time.
  rewrite (getvar_Some _ _ _ Ht), (getvar_Some _ _ _ Hphi). cbn [bind].
  unfold window_index, getitem.
  destruct t as [|a [|b t]]; [done|done|cbn in Hlen; lia].
Qed.

End DetectorEdges.

Lemma compress_subset (mask : list bool) (a : list float) (x : float) :
  x ∈ compress mask a -> x ∈ a.
Proof.
  revert a. induction mask as [|b mask IH]; intros [|y a]; cbn; try by intros ?%elem_of_nil.
  destruct b.
  - intros [->|H]%elem_of_cons; [left|right; by apply IH].
  - intros H. right. by apply IH.
Qed.

Lemma positive_finite (w : float) :
  ltb 0 w = true -> finite w = true ->
  exists m e, Prim2SF w = S754_finite false m e.
Proof.
  intros Hpos Hfin. apply ltb_iff in Hpos as (_ & _ & Hlt).
  unfold fkey, key_lt in Hlt. change (Prim2SF 0) with (S754_zero false) in Hlt.
  unfold finite in Hfin.
  destruct (Prim2SF w) as [[]|[]| |[] m e]; cbn in *; try done; try lia.
  by exists m, e.
Qed.

Section DetectorResults.

Variable np_log : float -> float.

(** X3: when the first two time samples are the same finite value, a
    positive finite window is divided by zero and [int(inf)] raises
    [OverflowError]. *)
Theorem detect_repeated_first_sample (ds : Dataset) (t phi2 : list float)
    (window threshold : float) (x : float) :
  coords ds !! "t" = Some t -> traces ds !! "phi2" = Some phi2 ->
  t !! 0 = Some x -> t !! 1 = Some x -> finite x = true ->
  ltb 0 window = true -> finite window = true ->
  detect_saturation_time np_log ds window threshold = Raise OverflowError.
Proof.
  intros Ht Hphi H0 H1 Hx Hpos Hfin. unfold detect_saturation_time.
  rewrite (getvar_Some _ _ _ Ht), (getvar_Some _ _ _ Hphi). cbn [bind].
  unfold window_index, getitem. rewrite H0, H1. cbn [bind].
  rewrite (sub_diag x Hx). unfold py_int. rewrite div_spec.
  destruct (positive_finite window Hpos Hfin) as (m & e & ->).
  reflexivity.
Qed.

(** X4: a value returned by the detector is the NaN sentinel or an element
    of the time coordinate, for every dataset, window and threshold. *)
Theorem detect_returns_sample_or_nan (ds : Dataset) (t : list float)
    (window threshold : float) (v : float) :
  coords ds !! "t" = Some t ->
  detect_saturation_time np_log ds window threshold = Return v ->
  is_nan v = true \/ v ∈ t.
Proof.
  intros Ht H. apply detect_search_inv in H
    as [(t' & phi2 & k & g & Ht' & _ & _ & _ & _ & _ & Hs)|(e & [=] & _)].
  assert (t' = t) as -> by congruence.
  unfold saturation_search in Hs.
  destruct (np_nanargmax g) as [p|]; [|done]. cbn [bind] in Hs.
  unfold getitem_mask in Hs. destruct (decide _); [|done]. cbn [bind] in Hs.
  destruct (compress _ _) as [|y rest] eqn:Ec; injection Hs as <-; [by left|].
  right. assert (Hy : y ∈ compress
    (map (fun g0 => ltb g0 threshold) (slice_from g (Z.of_nat p)))
    (slice_from t (Z.of_nat p))) by (rewrite Ec; left).
  apply compress_subset in Hy. unfold slice_from in Hy.
  by apply (subseteq_drop (slice_bound (length t) (Z.of_nat p)) t).
Qed.

(** X5: the detector returns a value exactly when some growth rate is
    defined; otherwise it raises the all-NaN [ValueError]. *)
Theorem detect_returns_iff_defined (ds : Dataset) (t phi2 : list float)
    (window threshold : float) (k : Z) (g : list float) :
  coords ds !! "t" = Some t -> traces ds !! "phi2" = Some phi2 ->
  window_index t window = Return k ->
  growth_rate_of np_log t phi2 k = Return g ->
  ((exists v, detect_saturation_time np_log ds window threshold = Return v) <->
   (exists i, defined_at g i)) /\
  ((forall i, ~ defined_at g i) ->
   detect_saturation_time np_log ds window threshold =
   Raise (ValueError AllNanSlice)).
Proof.
  intros Ht Hphi Hk Hg.
  rewrite (detect_unfold np_log ds t phi2 window threshold k) by done.
  rewrite Hg. cbn [bind].
  pose proof (growth_rate_of_length np_log _ _ _ _ Hg) as Hlen.
  pose proof (window_index_length _ _ _ Hk) as HN.
  assert (Hne : g <> []) by (intros ->; cbn in Hlen; lia).
  pose proof (saturation_search_spec t g threshold Hne Hlen) as Hspec.
  split; [split|].
  - intros [v Hv]. rewrite Hv in Hspec.
    destruct Hspec as [[_ [=]]|(q & (x & Hq & Hx & _) & _)].
    exists q, x. by split.
  - intros (i & x & Hi & Hx).
    destruct Hspec as [[Hall _]|(q & _ & [(j & v & _ & _ & ->)|[_ ->]])]; eauto.
    rewrite Forall_lookup in Hall. rewrite (Hall i x Hi) in Hx. done.
  - intros Hnone. destruct Hspec as [[_ ->]|(q & (x & Hq & Hx & _) & _)]; [done|].
    destruct (Hnone q). exists x. by split.
Qed.

(** X6: when even the largest defined growth rate is below the threshold,
    the detector returns the time of the peak. *)
Theorem detect_peak_below_threshold (ds : Dataset) (t phi2 : list float)
    (window threshold : float) (k : Z) (g : list float) (q : nat) (x : float) :
  coords ds !! "t" = Some t -> traces ds !! "phi2" = Some phi2 ->
  window_index t window = Return k ->
  growth_rate_of np_log t phi2 k = Return g ->
  first_peak g q -> g !! q = Some x -> ltb x threshold = true ->
  exists tq, t !! q = Some tq /\
    detect_saturation_time np_log ds window threshold = Return tq.
Proof.
  intros Ht Hphi Hk Hg Hq Hx Hlt.
  rewrite (detect_unfold np_log ds t phi2 window threshold k) by done.
  rewrite Hg. cbn [bind].
  pose proof (growth_rate_of_length np_log _ _ _ _ Hg) as Hlen.
  pose proof (window_index_length _ _ _ Hk) as HN.
  assert (Hne : g <> []) by (intros ->; cbn in Hlen; lia).
  destruct (lookup_lt_is_Some_2 t q) as [tq Htq].
  { apply lookup_lt_Some in Hx. lia. }
  exists tq. split; [done|].
  apply (search_spec_functional t g threshold);
    [by apply saturation_search_spec|].
  right. exists q. split; [done|]. left. exists q, tq.
  split_and!; [|done|done]. unfold first_below.
  split_and!; [lia|by exists x|intros; lia].
Qed.

(** X7: raising the threshold never loses a detection and never delays it:
    if a saturation time is found for [threshold], one is found for every
    larger [threshold'], and it is not later. *)
Theorem detect_threshold_monotone (ds : Dataset) (t : list float)
    (window threshold threshold' : float) (v : float) :
  coords ds !! "t" = Some t -> strictly_increasing t = true ->
  detect_saturation_time np_log ds window threshold = Return v ->
  is_nan v = false ->
  leb threshold threshold' = true ->
  exists v', detect_saturation_time np_log ds window threshold' = Return v' /\
             leb v' v = true.
Proof.
  intros Ht Hinc H Hv Hth. apply detect_search_inv in H
    as [(t' & phi2 & k & g & Ht' & Hphi & Hk & Hg & Hlen & HN & Hs)|(e & [=] & _)].
  assert (t' = t) as -> by congruence.
  rewrite (detect_unfold np_log ds t phi2 window threshold' k) by done.
  rewrite Hg. cbn [bind].
  assert (Hne : g <> []) by (intros ->; cbn in Hlen; lia).
  pose proof (saturation_search_spec t g threshold Hne Hlen) as Hspec.
  pose proof (saturation_search_spec t g threshold' Hne Hlen) as Hspec'.
  rewrite Hs in Hspec.
  destruct Hspec as [[_ [=]]|(q & Hq & [(i & v0 & Hi & Hti & [= <-])|[_ [= ->]]])];
    [|done].
  destruct Hi as (Hqi & (x & Hx & Hlt) & _).
  assert (Hlt' : ltb x threshold' = true) by by apply (ltb_leb_trans _ threshold).
  destruct Hspec' as [[Hall _]|(q' & Hq' & Hr)].
  { by apply first_peak_defined in Hq. }
  rewrite <- (first_peak_unique g q q' Hq Hq') in Hr.
  destruct Hr as [(i' & v' & (Hqi' & _ & Hfirst) & Hti' & ->)|[Hnone _]].
  - exists v'. split; [done|].
    apply (strictly_increasing_le t i' i); try done.
    destruct (Nat.le_gt_cases i' i) as [|Hgt]; [done|].
    rewrite (Hfirst i x ltac:(lia) Hx) in Hlt'. done.
  - rewrite (Hnone i x Hqi Hx) in Hlt'. done.
Qed.

End DetectorResults.

Lemma slice_from_neg {A : Type} (a : list A) (m : nat) :
  1 <= m <= length a ->
  slice_from a (- Z.of_nat m) = drop (length a - m) a.
Proof.
  intros Hm. unfold slice_from. f_equal. unfold slice_bound.
  destruct (Z.ltb_spec (- Z.of_nat m) 0); lia.
Qed.

Lemma slice_to_nonneg {A : Type} (a : list A) (m : nat) :
  m <= length a -> slice_to a (Z.of_nat m) = take m a.
Proof.
  intros Hm. unfold slice_to. f_equal. unfold slice_bound.
  destruct (Z.ltb_spec (Z.of_nat m) 0); lia.
Qed.

Section DetectorShapes.

Variable np_log : float -> float.

(** X8: a negative index [-m] (from a negative window) is not rejected:
    the slices then pair the last [m] samples with the first [m], so the
    growth-rate array is missing on the first [N - m] entries and holds at
    [N - m + j] the finite difference between sample [N - m + j] and sample
    [j]. *)
Theorem growth_rate_negative_index (t phi2 : list float) (m : nat) :
  length phi2 = length t -> 1 <= m <= length t ->
  exists g,
    growth_rate_of np_log t phi2 (- Z.of_nat m) = Return g /\
    (forall i, i < length t - m -> g !! i = Some nan) /\
    (forall j fi fj ti tj, j < m ->
       phi2 !! (length t - m + j) = Some fi -> phi2 !! j = Some fj ->
       t !! (length t - m + j) = Some ti -> t !! j = Some tj ->
       g !! (length t - m + j) =
       Some ((np_log fi - np_log fj) / (ti - tj))%float).
Proof.
  intros Hlen Hm. unfold growth_rate_of, np_sub, np_div, np_full.
  set (L := map np_log phi2).
  assert (HL : length L = length t) by (unfold L; by rewrite length_map).
  rewrite Z.opp_involutive.
  rewrite !slice_from_neg, !slice_to_nonneg by lia.
  rewrite HL.
  rewrite broadcast2_same_length by (rewrite length_drop, length_take; lia).
  cbn [bind].
  rewrite broadcast2_same_length by (rewrite length_drop, length_take; lia).
  cbn [bind].
  rewrite broadcast2_same_length
    by (rewrite !length_zip_with, !length_drop, !length_take; lia).
  cbn [bind]. unfold setitem_slice_from.
  rewrite length_replicate.
  replace (slice_bound (length t) (- Z.of_nat m)) with (length t - m)
    by (unfold slice_bound; destruct (Z.ltb_spec (- Z.of_nat m) 0); lia).
  rewrite decide_True
    by (rewrite !length_zip_with, !length_drop, !length_take; lia).
  eexists. split; [reflexivity|]. rewrite take_replicate. split.
  - intros i Hi. rewrite lookup_app_l by (rewrite length_replicate; lia).
    apply lookup_replicate_2. lia.
  - intros j fi fj ti tj Hj Hfi Hfj Hti Htj.
    rewrite lookup_app_r by (rewrite length_replicate; lia).
    rewrite length_replicate.
    replace (length t - m + j - Nat.min (length t - m) (length t)) with j by lia.
    rewrite !lookup_zip_with, !lookup_drop, !lookup_take_lt by lia.
    unfold L. rewrite !list_lookup_fmap, Hfi, Hfj, Hti, Htj. reflexivity.
Qed.

(** X9: arrays of unequal length are caught only by broadcasting: with a
    window of [k >= 1] samples, when the two finite differences have
    different lengths and neither has length 1, the detector raises the
    broadcasting [ValueError]. *)
Theorem detect_length_mismatch (ds : Dataset) (t phi2 : list float)
    (window threshold : float) (k : Z) :
  coords ds !! "t" = Some t -> traces ds !! "phi2" = Some phi2 ->
  window_index t window = Return k -> (1 <= k)%Z ->
  length phi2 - Z.to_nat k <> length t - Z.to_nat k ->
  length phi2 - Z.to_nat k <> 1 -> length t - Z.to_nat k <> 1 ->
  detect_saturation_time np_log ds window threshold =
  Raise (ValueError Broadcast).
Proof.
  intros Ht Hphi Hk Hk1 Hne H1 H2.
  rewrite (detect_unfold np_log ds t phi2 window threshold k) by done.
  unfold growth_rate_of, np_sub, np_div.
  rewrite !slice_from_nonneg, !slice_to_neg by lia.
  rewrite length_map.
  rewrite broadcast2_same_length
    by (rewrite length_drop, length_take, length_map; lia).
  cbn [bind].
  rewrite broadcast2_same_length by (rewrite length_drop, length_take; lia).
  cbn [bind].
  set (num := zip_with _ _ _). set (den := zip_with _ _ _).
  assert (Hnum : length num = length phi2 - Z.to_nat k)
    by (unfold num; rewrite length_zip_with, length_drop, length_take, length_map; lia).
  assert (Hden : length den = length t - Z.to_nat k)
    by (unfold den; rewrite length_zip_with, length_drop, length_take; lia).
  unfold broadcast2. rewrite decide_False by lia.
  destruct num as [|x [|x' num]], den as [|y [|y' den]]; cbn in *; try lia;
    reflexivity.
Qed.

End DetectorShapes.

(** ** Further properties of the renderers *)


Section AveragedExplicit.

Variable mean_dim_t : list (list float) -> list float.


End AveragedExplicit.



(** ** Concrete runs of the further properties *)

Lemma detect_exceptions_witness :
  (ValueError AllNanSlice = KeyError "t" /\
   coords (mk_dataset ex_time ex_field) !! "t" = None) \/
  (ValueError AllNanSlice = KeyError "phi2" /\
   traces (mk_dataset ex_time ex_field) !! "phi2" = None) \/
  (ValueError AllNanSlice = IndexError /\
   exists t, coords (mk_dataset ex_time ex_field) !! "t" = Some t /\ length t < 2) \/
  ValueError AllNanSlice = OverflowError \/
  ValueError AllNanSlice = ValueError NanToInt \/
  ValueError AllNanSlice = ValueError Broadcast \/
  ValueError AllNanSlice = ValueError AllNanSlice.
Proof.
  apply (detect_exceptions Libm.log_ref (mk_dataset ex_time ex_field)
           7 scenario_threshold (ValueError AllNanSlice)); run.
Defined.

Lemma detect_short_series_witness :
  detect_saturation_time Libm.log_ref (mk_dataset [0%float] [1%float])
    20 scenario_threshold = Raise IndexError.
Proof.
  apply (detect_short_series Libm.log_ref (mk_dataset [0%float] [1%float])
           [0%float] [1%float] 20 scenario_threshold); run.
Defined.

Lemma detect_repeated_first_sample_witness :
  detect_saturation_time Libm.log_ref (mk_dataset ex_time_repeated ex_field3)
    1 scenario_threshold = Raise OverflowError.
Proof.
  apply (detect_repeated_first_sample Libm.log_ref
           (mk_dataset ex_time_repeated ex_field3) ex_time_repeated ex_field3
           1 scenario_threshold 1); run.
Defined.

Lemma detect_returns_sample_or_nan_witness :
  is_nan 4 = true \/ 4%float ∈ ex_time.
Proof.
  apply (detect_returns_sample_or_nan Libm.log_ref (mk_dataset ex_time ex_field)
           ex_time 1 scenario_threshold 4); run.
Defined.

Lemma detect_returns_iff_defined_witness :
  ((exists v, detect_saturation_time Libm.log_ref
                (mk_dataset ex_time4 ex_growing) 1 scenario_threshold = Return v) <->
   (exists i, defined_at ex_growing_rate i)) /\
  ((forall i, ~ defined_at ex_growing_rate i) ->
   detect_saturation_time Libm.log_ref (mk_dataset ex_time4 ex_growing)
     1 scenario_threshold = Raise (ValueError AllNanSlice)).
Proof.
  apply (detect_returns_iff_defined Libm.log_ref (mk_dataset ex_time4 ex_growing)
           ex_time4 ex_growing 1 scenario_threshold 1 ex_growing_rate); run.
Defined.

Lemma detect_peak_below_threshold_witness :
  exists tq, ex_time4 !! 1 = Some tq /\
    detect_saturation_time Libm.log_ref (mk_dataset ex_time4 ex_growing) 1 1
    = Return tq.
Proof.
  apply (detect_peak_below_threshold Libm.log_ref (mk_dataset ex_time4 ex_growing)
           ex_time4 ex_growing 1 1 1 ex_growing_rate 1 0x1.62e42fefa39efp-1);
    try run.
  exact ex_growing_peak.
Defined.

Lemma detect_threshold_monotone_witness :
  exists v', detect_saturation_time Libm.log_ref (mk_dataset ex_time ex_field) 1 1
             = Return v' /\ leb v' 4 = true.
Proof.
  apply (detect_threshold_monotone Libm.log_ref (mk_dataset ex_time ex_field)
           ex_time 1 scenario_threshold 1 4); run.
Defined.

Lemma growth_rate_negative_index_witness :
  exists g,
    growth_rate_of Libm.log_ref ex_time4 ex_growing (- Z.of_nat 1) = Return g /\
    (forall i, i < length ex_time4 - 1 -> g !! i = Some nan) /\
    (forall j fi fj ti tj, j < 1 ->
       ex_growing !! (length ex_time4 - 1 + j) = Some fi ->
       ex_growing !! j = Some fj ->
       ex_time4 !! (length ex_time4 - 1 + j) = Some ti -> ex_time4 !! j = Some tj ->
       g !! (length ex_time4 - 1 + j) =
       Some ((Libm.log_ref fi - Libm.log_ref fj) / (ti - tj))%float).
Proof.
  apply (growth_rate_negative_index Libm.log_ref ex_time4 ex_growing 1); run.
Defined.

Lemma detect_length_mismatch_witness :
  detect_saturation_time Libm.log_ref (mk_dataset ex_time ex_field3)
    1 scenario_threshold = Raise (ValueError Broadcast).
Proof.
  apply (detect_length_mismatch Libm.log_ref (mk_dataset ex_time ex_field3)
           ex_time ex_field3 1 scenario_threshold 1); run.
Defined.


